(** * The request authenticator of the security plugin

    A shallow embedding of
    [x-pack/plugins/security/server/authentication/authenticator.ts]:
    the provider registry, the session envelope, and the three public
    operations [login], [authenticate] and [logout] with the private helpers
    [providerIterator], [getSessionValue] and [updateSessionValue].

    The session storage, the clock and the calls made to providers are
    effects of the TypeScript code.  They are threaded explicitly through a
    [World] which also records, in [trace], every storage operation and every
    provider call in the order in which the code performs them.  A call ends
    normally or by throwing.

    Numbers are integers ([Z]): times and durations in milliseconds.  A
    request is a [KibanaRequest] by its type, so [assertRequest] has nothing
    to reject; the debug log lines have no bearing on results or storage and
    are left out. *)

From Stdlib Require Import String List ZArith Bool Lia.
Import ListNotations.
Local Open Scope string_scope.
Local Open Scope Z_scope.
Local Open Scope list_scope.

Set Implicit Arguments.

(** ** What the module imports *)

(** The payloads the authenticator never inspects ([unknown] in the source),
    the request, the error values, the option bag a provider class is
    constructed with, and the two imported functions [getErrorStatusCode]
    (from [../errors]) and [isSAMLRequestQuery] (from [./providers]).
    [getErrorStatusCode] answers [None] for an error that carries no status
    code. *)
Class Externals : Type := {
  State : Type;
  Value : Type;
  User : Type;
  Error : Type;
  KibanaRequest : Type;
  AuthenticationProviderSpecificOptions : Type;
  getErrorStatusCode : Error -> option Z;
  isSAMLRequestQuery : KibanaRequest -> bool
}.

(** ** Insertion-ordered maps with string keys (the JS [Map]) *)

Module JSMap.

Definition t (V : Type) : Type := list (string * V).

(** [Map.prototype.set]: an existing key keeps its position and takes the
    new value, a new key goes to the end. *)
Fixpoint set {V} (k : string) (v : V) (m : t V) : t V :=
  match m with
  | [] => [(k, v)]
  | (k', v') :: m' =>
      if String.eqb k' k then (k', v) :: m' else (k', v') :: set k v m'
  end.

(** [new Map(entries)]. *)
Definition of_entries {V} (entries : list (string * V)) : t V :=
  fold_left (fun m kv => set (fst kv) (snd kv) m) entries [].

Fixpoint get {V} (m : t V) (k : string) : option V :=
  match m with
  | [] => None
  | (k', v) :: m' => if String.eqb k' k then Some v else get m' k
  end.

Definition has {V} (m : t V) (k : string) : bool :=
  match get m k with Some _ => true | None => false end.

Definition keys {V} (m : t V) : list string := map fst m.

End JSMap.

(** How a call ends: with a value, or with an exception thrown. *)
Inductive Completion (A : Type) : Type :=
| Normal (a : A)
| Threw (message : string).
Arguments Threw {A} message.

Section Authentication.

Context {ext : Externals}.

(** ** Data model *)

(** The shape of the session that is stored in the cookie.  [expires] and
    [state] are nullable in the source; [None] is [null]. *)
Record ProviderSession : Type := {
  provider : string;
  expires : option Z;
  state : option State
}.

(** The shape of the login attempt. *)
Record ProviderLoginAttempt : Type := {
  attempt_provider : string;
  attempt_value : Value
}.

(** Modelled from the spec: [AuthenticationResult] (its module
    [./authentication_result] is imported by the authenticator).  An outcome
    is one of not-handled, succeeded(user), failed(error) and
    redirected(destination); succeeded and redirected optionally carry a state
    to persist, and at most one of the intents "update" and "clear" is set:
    the state is left alone, asked to be cleared, or replaced. *)
Inductive StateIntent : Type :=
| KeepState
| ClearState
| UpdateState (s : State).

Inductive AuthenticationResult : Type :=
| NotHandled
| Succeeded (user : User) (st : StateIntent)
| Failed (error : Error)
| Redirected (redirectURL : string) (st : StateIntent).

Definition notHandled (r : AuthenticationResult) : bool :=
  match r with NotHandled => true | _ => false end.

Definition succeeded (r : AuthenticationResult) : bool :=
  match r with Succeeded _ _ => true | _ => false end.

Definition failed (r : AuthenticationResult) : bool :=
  match r with Failed _ => true | _ => false end.

Definition redirected (r : AuthenticationResult) : bool :=
  match r with Redirected _ _ => true | _ => false end.

Definition intent (r : AuthenticationResult) : StateIntent :=
  match r with
  | Succeeded _ st | Redirected _ st => st
  | _ => KeepState
  end.

Definition shouldUpdateState (r : AuthenticationResult) : bool :=
  match intent r with UpdateState _ => true | _ => false end.

Definition shouldClearState (r : AuthenticationResult) : bool :=
  match intent r with ClearState => true | _ => false end.

(** [authenticationResult.state], read only where the state is updated. *)
Definition result_state (r : AuthenticationResult) : option State :=
  match intent r with UpdateState s => Some s | _ => None end.

(** [authenticationResult.failed() &&
     getErrorStatusCode(authenticationResult.error) === 401] *)
Definition failedUnauthorized (r : AuthenticationResult) : bool :=
  match r with
  | Failed e =>
      match getErrorStatusCode e with
      | Some code => code =? 401
      | None => false
      end
  | _ => false
  end.

(** Modelled from the spec: [DeauthenticationResult] (module
    [./deauthentication_result]): not-handled or redirected(destination). *)
Inductive DeauthenticationResult : Type :=
| DeauthNotHandled
| DeauthRedirected (redirectURL : string).

(** The capability contract of [BaseAuthenticationProvider].  A provider never
    touches the session storage; what it answers is a function of what it is
    passed.  [None] as provider state is [null] (or the absent argument of the
    SAML provider's [logout(request)]). *)
Record BaseAuthenticationProvider : Type := {
  provider_login : KibanaRequest -> Value -> option State -> AuthenticationResult;
  provider_authenticate : KibanaRequest -> option State -> AuthenticationResult;
  provider_logout : KibanaRequest -> option State -> DeauthenticationResult
}.

(** A provider class is its constructor:
    [new ProviderClassName(options, providerSpecificOptions)] as a function
    of the provider-specific options ([None] is [undefined]), which gives a
    provider or throws.  The common options (cluster client, base path,
    tokens, logger) are the same for every provider of an authenticator. *)
Definition ProviderClass : Type :=
  option AuthenticationProviderSpecificOptions
  -> Completion BaseAuthenticationProvider.

(** The five provider classes the module imports. *)
Record ProviderClasses : Type := {
  BasicAuthenticationProvider : ProviderClass;
  KerberosAuthenticationProvider : ProviderClass;
  SAMLAuthenticationProvider : ProviderClass;
  TokenAuthenticationProvider : ProviderClass;
  OIDCAuthenticationProvider : ProviderClass
}.

(** Mapping between provider key defined in the config and authentication
    provider class. *)
Definition providerMap (cls : ProviderClasses) : JSMap.t ProviderClass :=
  JSMap.of_entries
    [ ("basic", BasicAuthenticationProvider cls);
      ("kerberos", KerberosAuthenticationProvider cls);
      ("saml", SAMLAuthenticationProvider cls);
      ("token", TokenAuthenticationProvider cls);
      ("oidc", OIDCAuthenticationProvider cls) ].

(** ** Effects *)

(** What the code does to the outside, in order. *)
Inductive Event : Type :=
| StorageGet
| StorageSet (v : ProviderSession)
| StorageClear
| LoginCall (providerType : string) (value : Value) (st : option State)
| AuthenticateCall (providerType : string) (st : option State)
| LogoutCall (providerType : string) (st : option State).

(** The request-scoped session storage, the clock read by [Date.now()], and
    the events so far (oldest first). *)
Record World : Type := {
  storage : option ProviderSession;
  clock : Z;
  trace : list Event
}.

Definition M (A : Type) : Type := World -> Completion A * World.

Definition ret {A} (a : A) : M A := fun w => (Normal a, w).

Definition bind {A B} (m : M A) (k : A -> M B) : M B :=
  fun w =>
    match m w with
    | (Normal a, w') => k a w'
    | (Threw msg, w') => (Threw msg, w')
    end.

Definition throw {A} (msg : string) : M A := fun w => (Threw msg, w).

Definition emit (e : Event) : M unit :=
  fun w => (Normal tt,
            {| storage := storage w; clock := clock w; trace := trace w ++ [e] |}).

End Authentication.

Declare Scope auth_scope.
Delimit Scope auth_scope with auth.
Notation "x <- m ;; k" := (bind m (fun x => k))
  (at level 61, m at next level, right associativity) : auth_scope.
Notation "m ;;; k" := (bind m (fun _ => k))
  (at level 61, right associativity) : auth_scope.
Local Open Scope auth_scope.

Section Authenticator.

Context {ext : Externals}.

(** Modelled from the spec: the session storage (interface [SessionStorage]
    of the core server): [get], [set] and [clear] on the request's one
    envelope, where [set] and [clear] take effect for the [get]s that follow. *)
Definition sessionStorage_get : M (option ProviderSession) :=
  fun w => (Normal (storage w),
            {| storage := storage w; clock := clock w;
               trace := trace w ++ [StorageGet] |}).

Definition sessionStorage_set (v : ProviderSession) : M unit :=
  fun w => (Normal tt,
            {| storage := Some v; clock := clock w;
               trace := trace w ++ [StorageSet v] |}).

Definition sessionStorage_clear : M unit :=
  fun w => (Normal tt,
            {| storage := None; clock := clock w;
               trace := trace w ++ [StorageClear] |}).

(** [Date.now()] *)
Definition Date_now : M Z := fun w => (Normal (clock w), w).

(** Calls of the three provider operations; each leaves its event. *)
Definition call_login (providerType : string) (p : BaseAuthenticationProvider)
    (request : KibanaRequest) (value : Value) (st : option State)
  : M AuthenticationResult :=
  emit (LoginCall providerType value st) ;;;
  ret (provider_login p request value st).

Definition call_authenticate (providerType : string)
    (p : BaseAuthenticationProvider) (request : KibanaRequest)
    (st : option State) : M AuthenticationResult :=
  emit (AuthenticateCall providerType st) ;;;
  ret (provider_authenticate p request st).

Definition call_logout (providerType : string) (p : BaseAuthenticationProvider)
    (request : KibanaRequest) (st : option State) : M DeauthenticationResult :=
  emit (LogoutCall providerType st) ;;;
  ret (provider_logout p request st).

(** A member access on the result of a registry lookup that the source marks
    non-null with [!]: on [undefined] it is a [TypeError] at run time. *)
Definition nonNull {A} (o : option A) : M A :=
  match o with
  | Some a => ret a
  | None => throw "TypeError: Cannot read property of undefined"
  end.

(** ** The authenticator *)

(** The options the constructor reads: [config.authc.providers],
    [config.authc[providerType]] for a provider type that is an own property
    of [config.authc] ([authc], [None] where it is not),
    [config.sessionTimeout], [isSystemAPIRequest], and the provider classes. *)
Record AuthenticatorOptions : Type := {
  authProviders : list string;
  authc : string -> option AuthenticationProviderSpecificOptions;
  sessionTimeout : option Z;
  isSystemAPIRequest : KibanaRequest -> bool;
  classes : ProviderClasses
}.

Record Authenticator : Type := {
  options : AuthenticatorOptions;
  (** List of configured and instantiated authentication providers. *)
  providers : JSMap.t BaseAuthenticationProvider;
  (** Session duration in ms. If [None] session will stay active until the
      browser is closed. *)
  ttl : option Z
}.

Definition assertLoginAttempt (attempt : ProviderLoginAttempt) : M unit :=
  if String.eqb (attempt_provider attempt) ""
  then throw "Login attempt should be an object with non-empty provider property."
  else ret tt.

(** Instantiates authentication provider based on the provider key from
    config: throws for a key that is not in [providerMap], and otherwise ends
    as the constructor of the class does. *)
Definition instantiateProvider (cls : ProviderClasses) (providerType : string)
    (providerSpecificOptions : option AuthenticationProviderSpecificOptions)
  : Completion BaseAuthenticationProvider :=
  match JSMap.get (providerMap cls) providerType with
  | None =>
      Threw (String.append "Unsupported authentication provider name: "
               (String.append providerType "."))
  | Some ProviderClassName => ProviderClassName providerSpecificOptions
  end.

(** [authProviders.map(providerType => [providerType, instantiateProvider(..)])]:
    the providers are instantiated in the order of the list, each with the
    option bag [config.authc] has for it, and the first throw ends the map. *)
Fixpoint instantiateAll (cls : ProviderClasses)
    (authc : string -> option AuthenticationProviderSpecificOptions)
    (names : list string)
  : Completion (list (string * BaseAuthenticationProvider)) :=
  match names with
  | [] => Normal []
  | providerType :: rest =>
      match instantiateProvider cls providerType (authc providerType) with
      | Threw msg => Threw msg
      | Normal p =>
          match instantiateAll cls authc rest with
          | Threw msg => Threw msg
          | Normal entries => Normal ((providerType, p) :: entries)
          end
      end
  end.

(** The constructor. *)
Definition newAuthenticator (opts : AuthenticatorOptions)
  : Completion Authenticator :=
  match authProviders opts with
  | [] =>
      Threw "No authentication provider is configured. Verify `xpack.security.authc.providers` config value."
  | _ =>
      match instantiateAll (classes opts) (authc opts) (authProviders opts) with
      | Threw msg => Threw msg
      | Normal entries =>
          Normal {| options := opts;
                    providers := JSMap.of_entries entries;
                    ttl := sessionTimeout opts |}
      end
  end.

Section Methods.

Variable this : Authenticator.

(** [this.ttl && Date.now() + this.ttl]: a falsy [ttl] ([null] or [0]) is the
    value of the expression, and the clock is read only for a truthy one. *)
Definition sessionExpires : M (option Z) :=
  match ttl this with
  | None => ret None
  | Some t =>
      if t =? 0 then ret (Some t)
      else (now <- Date_now ;; ret (Some (now + t)))
  end.

(** Extracts session value for the specified request. Under the hood it can
    clear session if it belongs to the provider that is not available. *)
Definition getSessionValue : M (option ProviderSession) :=
  sessionValue <- sessionStorage_get ;;
  match sessionValue with
  | Some sv =>
      if negb (JSMap.has (providers this) (provider sv))
      then (sessionStorage_clear ;;; ret None)
      else ret (Some sv)
  | None => ret None
  end.

(** Performs the initial login request using the provider login attempt
    description. *)
Definition login (request : KibanaRequest) (attempt : ProviderLoginAttempt)
  : M AuthenticationResult :=
  assertLoginAttempt attempt ;;;
  match JSMap.get (providers this) (attempt_provider attempt) with
  | None => ret NotHandled
  | Some p =>
      existingSession0 <- getSessionValue ;;
      existingSession <-
        match existingSession0 with
        | Some sv =>
            if negb (String.eqb (provider sv) (attempt_provider attempt))
            then (sessionStorage_clear ;;; ret None)
            else ret (Some sv)
        | None => ret None
        end ;;
      authenticationResult <-
        call_login (attempt_provider attempt) p request (attempt_value attempt)
          (match existingSession with Some sv => state sv | None => None end) ;;
      let shouldClearSession :=
        shouldClearState authenticationResult
        || failedUnauthorized authenticationResult in
      (if match existingSession with Some _ => true | None => false end
          && shouldClearSession
       then sessionStorage_clear
       else if shouldUpdateState authenticationResult
       then (e <- sessionExpires ;;
             sessionStorage_set
               {| state := result_state authenticationResult;
                  provider := attempt_provider attempt;
                  expires := e |})
       else ret tt) ;;;
      ret authenticationResult
  end.

Definition updateSessionValue (providerType : string)
    (authenticationResult : AuthenticationResult)
    (existingSession : option ProviderSession) (isSystemAPIRequest : bool)
  : M unit :=
  if match existingSession with Some _ => false | None => true end
     && negb (shouldUpdateState authenticationResult)
  then ret tt
  else
    let sessionCanBeUpdated :=
      (succeeded authenticationResult || redirected authenticationResult)
      && (shouldUpdateState authenticationResult || negb isSystemAPIRequest) in
    if shouldClearState authenticationResult
       || failedUnauthorized authenticationResult
    then sessionStorage_clear
    else if sessionCanBeUpdated
    then (st <- (if shouldUpdateState authenticationResult
                 then ret (result_state authenticationResult)
                 else (sv <- nonNull existingSession ;; ret (state sv))) ;;
          e <- sessionExpires ;;
          sessionStorage_set
            {| state := st; provider := providerType; expires := e |})
    else ret tt.

(** Returns providers sorted in the order of priority (based on the session
    ownership).  The generator only reads the registry, so what it yields is a
    list; the owner's entry is the unchecked lookup of the source. *)
Definition providerIterator (sessionValue : option ProviderSession)
  : list (string * option BaseAuthenticationProvider) :=
  match sessionValue with
  | None => map (fun kv => (fst kv, Some (snd kv))) (providers this)
  | Some sv =>
      (provider sv, JSMap.get (providers this) (provider sv))
      :: map (fun kv => (fst kv, Some (snd kv)))
           (filter (fun kv => negb (String.eqb (fst kv) (provider sv)))
              (providers this))
  end.

(** The body of the [for .. of] loop of [authenticate], over what is left of
    the iterator; [authenticationResult] is the value of the variable when the
    loop is entered. *)
Fixpoint authenticateLoop (request : KibanaRequest)
    (existingSession : option ProviderSession)
    (chain : list (string * option BaseAuthenticationProvider))
    (authenticationResult : AuthenticationResult) : M AuthenticationResult :=
  match chain with
  | [] => ret authenticationResult
  | (providerType, p) :: rest =>
      let ownsSession :=
        match existingSession with
        | Some sv => String.eqb (provider sv) providerType
        | None => false
        end in
      p' <- nonNull p ;;
      authenticationResult' <-
        call_authenticate providerType p' request
          (if ownsSession
           then match existingSession with Some sv => state sv | None => None end
           else None) ;;
      updateSessionValue providerType authenticationResult'
        (if ownsSession then existingSession else None)
        (isSystemAPIRequest (options this) request) ;;;
      if failed authenticationResult' || succeeded authenticationResult'
         || redirected authenticationResult'
      then ret authenticationResult'
      else authenticateLoop request existingSession rest authenticationResult'
  end.

(** Performs request authentication using configured chain of authentication
    providers. *)
Definition authenticate (request : KibanaRequest) : M AuthenticationResult :=
  existingSession <- getSessionValue ;;
  authenticateLoop request existingSession (providerIterator existingSession)
    NotHandled.

(** Deauthenticates current request. *)
Definition logout (request : KibanaRequest) : M DeauthenticationResult :=
  sessionValue <- getSessionValue ;;
  match sessionValue with
  | Some sv =>
      sessionStorage_clear ;;;
      p <- nonNull (JSMap.get (providers this) (provider sv)) ;;
      call_logout (provider sv) p request (state sv)
  | None =>
      if isSAMLRequestQuery request && JSMap.has (providers this) "saml"
      then (p <- nonNull (JSMap.get (providers this) "saml") ;;
            call_logout "saml" p request None)
      else ret DeauthNotHandled
  end.

End Methods.

End Authenticator.

(** The provider keys of [providerMap]. *)
Definition supportedProviders : list string :=
  ["basic"; "kerberos"; "saml"; "token"; "oidc"].

(** ** Vocabulary of the statements *)

Section Vocabulary.

Context {ext : Externals}.

(** The world [w] after further events, with [s] in the storage. *)
Definition after (w : World) (s : option ProviderSession) (evs : list Event)
  : World :=
  {| storage := s; clock := clock w; trace := trace w ++ evs |}.

(** The events a call has added when it takes the world from [w] to [w']. *)
Definition newEvents (w w' : World) : list Event :=
  skipn (length (trace w)) (trace w').

Definition isStorageMutation (e : Event) : bool :=
  match e with StorageSet _ | StorageClear => true | _ => false end.


(** The [authenticate] calls among some events: who was called, with what. *)
Fixpoint authenticateCalls (evs : list Event) : list (string * option State) :=
  match evs with
  | [] => []
  | AuthenticateCall n st :: rest => (n, st) :: authenticateCalls rest
  | _ :: rest => authenticateCalls rest
  end.

(** The value of [this.ttl && Date.now() + this.ttl] when the clock shows
    [now]. *)
Definition expiresAt (ttl : option Z) (now : Z) : option Z :=
  match ttl with
  | None => None
  | Some t => if t =? 0 then Some t else Some (now + t)
  end.

(** What [getSessionValue] answers on a storage holding [s]. *)
Definition validSession (this : Authenticator) (s : option ProviderSession)
  : option ProviderSession :=
  match s with
  | Some sv => if JSMap.has (providers this) (provider sv) then Some sv else None
  | None => None
  end.

(** What a provider called [n] is passed by [authenticate] as its state, and
    as the session it owns, when the session read is [sv]. *)
Definition ownedSession (sv : option ProviderSession) (n : string)
  : option ProviderSession :=
  match sv with
  | Some s => if String.eqb (provider s) n then Some s else None
  | None => None
  end.

Definition ownedState (sv : option ProviderSession) (n : string)
  : option State :=
  match ownedSession sv n with Some s => state s | None => None end.

(** The outcome of the registered provider [n] on a request, for the session
    read. *)
Definition outcomeOf (this : Authenticator) (request : KibanaRequest)
    (sv : option ProviderSession) (n : string) : option AuthenticationResult :=
  match JSMap.get (providers this) n with
  | Some p => Some (provider_authenticate p request (ownedState sv n))
  | None => None
  end.

(** The order in which the spec has the providers visited: configured order
    without a session, the owner and then the others with one. *)
Definition visitOrder (this : Authenticator) (sv : option ProviderSession)
  : list string :=
  match sv with
  | None => JSMap.keys (providers this)
  | Some s =>
      provider s
      :: filter (fun n => negb (String.eqb n (provider s)))
           (JSMap.keys (providers this))
  end.

(** A list of names without the later repetitions of a name. *)
Fixpoint firstOccurrences (l : list string) : list string :=
  match l with
  | [] => []
  | x :: rest =>
      x :: filter (fun y => negb (String.eqb y x)) (firstOccurrences rest)
  end.

(** The providers [authenticate] goes through before one decides, and the
    deciding provider with its outcome if there is one. *)
Fixpoint scan (request : KibanaRequest) (sv : option ProviderSession)
    (chain : list (string * BaseAuthenticationProvider))
  : list string * option (string * AuthenticationResult) :=
  match chain with
  | [] => ([], None)
  | (n, p) :: rest =>
      let r := provider_authenticate p request (ownedState sv n) in
      if notHandled r
      then (n :: fst (scan request sv rest), snd (scan request sv rest))
      else ([], Some (n, r))
  end.

Definition callEvent (sv : option ProviderSession) (n : string) : Event :=
  AuthenticateCall n (ownedState sv n).

(** The outcome of an entry of the chain, for the session read. *)
Definition entryOutcome (request : KibanaRequest)
    (sv : option ProviderSession)
    (kv : string * BaseAuthenticationProvider) : AuthenticationResult :=
  provider_authenticate (snd kv) request (ownedState sv (fst kv)).

End Vocabulary.

(** ** A concrete installation, for evaluating the definitions *)

Module Demo.

(** States are counters, users and login values are names, an error is
    its status code, and a request says whether it is a system API request,
    whether its query is a SAML logout request, and whether it carries an
    [Authorization] header with valid basic credentials. *)
Record Request : Type := {
  systemAPI : bool;
  samlQuery : bool;
  authorization : bool
}.

Definition ext : Externals := {|
  State := nat;
  Value := string;
  User := string;
  Error := option Z;
  AuthenticationProviderSpecificOptions := string;
  KibanaRequest := Request;
  getErrorStatusCode := fun e => e;
  isSAMLRequestQuery := samlQuery
|}.
#[export] Existing Instance ext.
Canonical ext.

(** A provider that handles nothing. *)
Definition passive : BaseAuthenticationProvider := {|
  provider_login := fun _ _ _ => NotHandled;
  provider_authenticate := fun _ _ => NotHandled;
  provider_logout := fun _ _ => DeauthNotHandled
|}.

(** A basic provider: logs "elastic" in and keeps 1 as its state; it
    authenticates a request that carries the header or comes with its
    state, and asks for no change of the state. *)
Definition basic : BaseAuthenticationProvider := {|
  provider_login := fun _ v _ =>
    if String.eqb v "elastic" then Succeeded v (UpdateState 1%nat)
    else Failed (Some 401);
  provider_authenticate := fun req st =>
    if authorization req then Succeeded "elastic" KeepState
    else match st with
         | Some _ => Succeeded "elastic" KeepState
         | None => NotHandled
         end;
  provider_logout := fun _ _ => DeauthRedirected "/login"
|}.

(** A token provider.  Its state counts the refreshes left: with some left
    it refreshes the tokens and asks for the new state; with none left it
    sends the user to the login page and asks for the session to be cleared;
    without a state the tokens it finds on the request are rejected. *)
Definition token : BaseAuthenticationProvider := {|
  provider_login := fun _ v _ => Succeeded v (UpdateState 7%nat);
  provider_authenticate := fun _ st =>
    match st with
    | Some (S n) => Succeeded "elastic" (UpdateState n)
    | Some O => Redirected "/login" ClearState
    | None => Failed (Some 401)
    end;
  provider_logout := fun _ _ => DeauthRedirected "/login"
|}.

(** A SAML provider: without a state it starts the handshake with the
    identity provider; with a state whose access token was rejected
    (state 0) it fails with 401, with any other it succeeds. *)
Definition saml : BaseAuthenticationProvider := {|
  provider_login := fun _ v _ => Redirected "/idp" (UpdateState 1%nat);
  provider_authenticate := fun _ st =>
    match st with
    | Some O => Failed (Some 401)
    | Some (S _) => Succeeded "elastic" KeepState
    | None => Redirected "/idp" (UpdateState 1%nat)
    end;
  provider_logout := fun _ _ => DeauthRedirected "/idp/logout"
|}.

(** A class whose constructor takes any options. *)
Definition classOf (p : BaseAuthenticationProvider) : ProviderClass :=
  fun _ => Normal p.

(** A class whose constructor insists on a realm, the option bag here. *)
Definition realmClassOf (p : BaseAuthenticationProvider) : ProviderClass :=
  fun providerSpecificOptions =>
    match providerSpecificOptions with
    | Some _ => Normal p
    | None => Threw "Realm name must be specified"
    end.

Definition allClasses : ProviderClasses := {|
  BasicAuthenticationProvider := classOf basic;
  KerberosAuthenticationProvider := classOf passive;
  SAMLAuthenticationProvider := realmClassOf saml;
  TokenAuthenticationProvider := classOf token;
  OIDCAuthenticationProvider := realmClassOf passive
|}.

(** A configuration with a realm for the SAML and the OIDC provider. *)
Definition realms (providerType : string) : option string :=
  if String.eqb providerType "saml" then Some "saml1"
  else if String.eqb providerType "oidc" then Some "oidc1"
  else None.

Definition optionsFor (names : list string) (timeout : option Z)
  : AuthenticatorOptions := {|
  authProviders := names;
  authc := realms;
  sessionTimeout := timeout;
  isSystemAPIRequest := systemAPI;
  classes := allClasses
|}.

(** The authenticator the constructor builds, when it builds one. *)
Definition build (names : list string) (timeout : option Z) : Authenticator :=
  match newAuthenticator (optionsFor names timeout) with
  | Normal a => a
  | Threw _ =>
      {| options := optionsFor names timeout; providers := []; ttl := timeout |}
  end.

Definition userRequest : Request :=
  {| systemAPI := false; samlQuery := false; authorization := false |}.
Definition headerRequest : Request :=
  {| systemAPI := false; samlQuery := false; authorization := true |}.

Definition session (owner : string) (st : nat) : ProviderSession :=
  {| provider := owner; expires := Some 5000; state := Some st |}.

Definition attempt (name value : string) : ProviderLoginAttempt :=
  {| attempt_provider := name; attempt_value := value |}.

(** A world at time [now] with [s] in the storage and nothing done yet. *)
Definition world (s : option ProviderSession) (now : Z) : World :=
  {| storage := s; clock := now; trace := [] |}.

(** A request whose query is a SAML logout request. *)
Definition samlLogoutRequest : Request :=
  {| systemAPI := false; samlQuery := true; authorization := false |}.

(** A basic provider whose backend is down: every attempt fails with 500. *)
Definition flaky : BaseAuthenticationProvider := {|
  provider_login := fun _ _ _ => Failed (Some 500);
  provider_authenticate := fun _ st =>
    match st with
    | Some _ => Failed (Some 500)
    | None => NotHandled
    end;
  provider_logout := fun _ _ => DeauthNotHandled
|}.

(** A provider that pins the client to a server-side session: once logged
    in it asks for the client-side state to be cleared. *)
Definition pinning : BaseAuthenticationProvider := {|
  provider_login := fun _ v _ => Succeeded v ClearState;
  provider_authenticate := fun _ _ => NotHandled;
  provider_logout := fun _ _ => DeauthNotHandled
|}.

Definition otherClasses : ProviderClasses := {|
  BasicAuthenticationProvider := classOf flaky;
  KerberosAuthenticationProvider := classOf pinning;
  SAMLAuthenticationProvider := realmClassOf saml;
  TokenAuthenticationProvider := classOf token;
  OIDCAuthenticationProvider := realmClassOf passive
|}.

Definition otherOptionsFor (names : list string) (timeout : option Z)
  : AuthenticatorOptions := {|
  authProviders := names;
  authc := realms;
  sessionTimeout := timeout;
  isSystemAPIRequest := systemAPI;
  classes := otherClasses
|}.

(** The authenticator the constructor builds over [otherClasses]. *)
Definition buildOther (names : list string) (timeout : option Z)
  : Authenticator :=
  match newAuthenticator (otherOptionsFor names timeout) with
  | Normal a => a
  | Threw _ =>
      {| options := otherOptionsFor names timeout; providers := [];
         ttl := timeout |}
  end.

(** The same configuration without any option bag. *)
Definition optionsWithoutRealms (names : list string) (timeout : option Z)
  : AuthenticatorOptions := {|
  authProviders := names;
  authc := fun _ => None;
  sessionTimeout := timeout;
  isSystemAPIRequest := systemAPI;
  classes := allClasses
|}.

(** A provider that hands the client over to a server-side session: it logs
    in with 1 as its state, and the first time it meets that state it
    authenticates the request and asks for the state to be cleared. *)
Definition handover : BaseAuthenticationProvider := {|
  provider_login := fun _ v _ => Succeeded v (UpdateState 1%nat);
  provider_authenticate := fun _ st =>
    match st with
    | Some _ => Succeeded "elastic" ClearState
    | None => NotHandled
    end;
  provider_logout := fun _ _ => DeauthNotHandled
|}.

Definition handoverClasses : ProviderClasses := {|
  BasicAuthenticationProvider := classOf handover;
  KerberosAuthenticationProvider := classOf passive;
  SAMLAuthenticationProvider := realmClassOf saml;
  TokenAuthenticationProvider := classOf token;
  OIDCAuthenticationProvider := realmClassOf passive
|}.

Definition handoverOptionsFor (names : list string) (timeout : option Z)
  : AuthenticatorOptions := {|
  authProviders := names;
  authc := realms;
  sessionTimeout := timeout;
  isSystemAPIRequest := systemAPI;
  classes := handoverClasses
|}.

(** The authenticator the constructor builds over [handoverClasses]. *)
Definition buildHandover (names : list string) (timeout : option Z)
  : Authenticator :=
  match newAuthenticator (handoverOptionsFor names timeout) with
  | Normal a => a
  | Threw _ =>
      {| options := handoverOptionsFor names timeout; providers := [];
         ttl := timeout |}
  end.

End Demo.

(** ** The worlds the helpers leave behind *)

Section Effects.

Context {ext : Externals}.

(** The storage operations of [getSessionValue] on a storage holding [s]. *)
Definition readEvents (this : Authenticator) (s : option ProviderSession)
  : list Event :=
  match s with
  | Some sv =>
      if JSMap.has (providers this) (provider sv)
      then [StorageGet] else [StorageGet; StorageClear]
  | None => [StorageGet]
  end.

(** The world [updateSessionValue] leaves. *)
Definition updatedWorld (this : Authenticator) (providerType : string)
    (r : AuthenticationResult) (existingSession : option ProviderSession)
    (isSystem : bool) (w : World) : World :=
  if match existingSession with Some _ => false | None => true end
     && negb (shouldUpdateState r)
  then w
  else if shouldClearState r || failedUnauthorized r
  then after w None [StorageClear]
  else if (succeeded r || redirected r) && (shouldUpdateState r || negb isSystem)
  then
    let v := {| state := if shouldUpdateState r then result_state r
                         else match existingSession with
                              | Some sv => state sv
                              | None => None
                              end;
                provider := providerType;
                expires := expiresAt (ttl this) (clock w) |} in
    after w (Some v) [StorageSet v]
  else w.

(** What [updateSessionValue] does to a storage holding [s] at time [now]:
    the session it leaves and the storage operation it performs, if any. *)
Definition sessionMutation (this : Authenticator) (providerType : string)
    (r : AuthenticationResult) (existingSession : option ProviderSession)
    (isSystem : bool) (now : Z) (s : option ProviderSession)
  : option ProviderSession * list Event :=
  if match existingSession with Some _ => false | None => true end
     && negb (shouldUpdateState r)
  then (s, [])
  else if shouldClearState r || failedUnauthorized r
  then (None, [StorageClear])
  else if (succeeded r || redirected r) && (shouldUpdateState r || negb isSystem)
  then
    let v := {| state := if shouldUpdateState r then result_state r
                         else match existingSession with
                              | Some sv => state sv
                              | None => None
                              end;
                provider := providerType;
                expires := expiresAt (ttl this) now |} in
    (Some v, [StorageSet v])
  else (s, []).

(** The entries [providerIterator] yields for a session that [getSessionValue]
    has answered. *)
Definition chainOf (this : Authenticator) (sv : option ProviderSession)
  : list (string * BaseAuthenticationProvider) :=
  match sv with
  | None => providers this
  | Some s =>
      match JSMap.get (providers this) (provider s) with
      | Some p => [(provider s, p)]
      | None => []
      end
      ++ filter (fun kv => negb (String.eqb (fst kv) (provider s)))
           (providers this)
  end.

(** The world [authenticate] leaves, from what [scan] finds. *)
Definition authenticatedWorld (this : Authenticator) (request : KibanaRequest)
    (w : World) : World :=
  let sv := validSession this (storage w) in
  let found := scan request sv (chainOf this sv) in
  let w1 := after w sv (readEvents this (storage w)
                        ++ map (callEvent sv) (fst found)) in
  match snd found with
  | None => w1
  | Some (n, r) =>
      updatedWorld this n r (ownedSession sv n)
        (isSystemAPIRequest (options this) request)
        (after w1 sv [callEvent sv n])
  end.

Definition authenticatedResult (this : Authenticator) (request : KibanaRequest)
    (w : World) : AuthenticationResult :=
  let sv := validSession this (storage w) in
  match snd (scan request sv (chainOf this sv)) with
  | None => NotHandled
  | Some (_, r) => r
  end.

(** The storage operations with which [login] starts: the read, and the
    clearing of a session of another provider. *)
Definition loginReadEvents (this : Authenticator) (name : string)
    (s : option ProviderSession) : list Event :=
  readEvents this s
  ++ match validSession this s with
     | Some sv => if String.eqb (provider sv) name then [] else [StorageClear]
     | None => []
     end.

(** The world [login] leaves when the provider [p] it targets is registered
    under [name]. *)
Definition loggedInWorld (this : Authenticator) (request : KibanaRequest)
    (name : string) (value : Value) (p : BaseAuthenticationProvider) (w : World)
  : World :=
  let sv := validSession this (storage w) in
  let existing := ownedSession sv name in
  let r := provider_login p request value (ownedState sv name) in
  let w1 := after w existing
              (loginReadEvents this name (storage w)
               ++ [LoginCall name value (ownedState sv name)]) in
  if match existing with Some _ => true | None => false end
     && (shouldClearState r || failedUnauthorized r)
  then after w1 None [StorageClear]
  else if shouldUpdateState r
  then
    let v := {| state := result_state r; provider := name;
                expires := expiresAt (ttl this) (clock w) |} in
    after w1 (Some v) [StorageSet v]
  else w1.

End Effects.

(** * Properties *)

Section Worlds.

Context {ext : Externals}.

Lemma after_nil (w : World) : after w (storage w) [] = w.
Proof. destruct w; unfold after; simpl. now rewrite app_nil_r. Qed.

Lemma after_after (w : World) s1 e1 s2 e2 :
  after (after w s1 e1) s2 e2 = after w s2 (e1 ++ e2).
Proof. unfold after; simpl. now rewrite app_assoc. Qed.

Lemma storage_after (w : World) s evs : storage (after w s evs) = s.
Proof. reflexivity. Qed.

Lemma clock_after (w : World) s evs : clock (after w s evs) = clock w.
Proof. reflexivity. Qed.

Lemma trace_after (w : World) s evs : trace (after w s evs) = trace w ++ evs.
Proof. reflexivity. Qed.

Lemma newEvents_after (w : World) s evs : newEvents w (after w s evs) = evs.
Proof.
  unfold newEvents, after; simpl.
  rewrite skipn_app, skipn_all, Nat.sub_diag. reflexivity.
Qed.

Lemma newEvents_app (w w' : World) evs :
  trace w' = trace w ++ evs -> newEvents w w' = evs.
Proof.
  intros H. unfold newEvents. rewrite H.
  rewrite skipn_app, skipn_all, Nat.sub_diag. reflexivity.
Qed.

Lemma newEvents_same (w : World) : newEvents w w = [].
Proof. unfold newEvents. apply skipn_all. Qed.

Lemma sessionExpires_eq (this : Authenticator) (w : World) :
  sessionExpires this w = (Normal (expiresAt (ttl this) (clock w)), w).
Proof.
  unfold sessionExpires, expiresAt. destruct (ttl this) as [t|]; [|reflexivity].
  destruct (t =? 0); reflexivity.
Qed.

Lemma getSessionValue_eq (this : Authenticator) (w : World) :
  getSessionValue this w
  = (Normal (validSession this (storage w)),
     after w (validSession this (storage w)) (readEvents this (storage w))).
Proof.
  unfold getSessionValue, bind, sessionStorage_get, validSession, readEvents.
  destruct (storage w) as [sv|]; simpl.
  - destruct (JSMap.has (providers this) (provider sv)); simpl.
    + reflexivity.
    + unfold bind, sessionStorage_clear, ret, after; simpl.
      now rewrite <- app_assoc.
  - reflexivity.
Qed.

Lemma updateSessionValue_eq (this : Authenticator) n r es sys (w : World) :
  updateSessionValue this n r es sys w
  = (Normal tt, updatedWorld this n r es sys w).
Proof.
  unfold updateSessionValue, updatedWorld.
  destruct es as [sv|]; simpl.
  - destruct (shouldClearState r || failedUnauthorized r); [reflexivity|].
    destruct ((succeeded r || redirected r) && (shouldUpdateState r || negb sys));
      [|reflexivity].
    unfold bind. destruct (shouldUpdateState r); simpl;
      rewrite sessionExpires_eq; reflexivity.
  - destruct (shouldUpdateState r) eqn:Hu; simpl; [|reflexivity].
    destruct (shouldClearState r || failedUnauthorized r); [reflexivity|].
    destruct (succeeded r || redirected r); simpl; [|reflexivity].
    unfold bind; simpl. rewrite sessionExpires_eq. reflexivity.
Qed.

End Worlds.

Section Loop.

Context {ext : Externals}.
Variable this : Authenticator.
Variable request : KibanaRequest.

Lemma decisive_iff_handled (r : AuthenticationResult) :
  failed r || succeeded r || redirected r = negb (notHandled r).
Proof. destruct r; reflexivity. Qed.

Lemma updatedWorld_notHandled n es sys (w : World) :
  updatedWorld this n NotHandled es sys w = w.
Proof. unfold updatedWorld. destruct es; reflexivity. Qed.

Lemma owned_state_eq (sv : option ProviderSession) (n : string) :
  (if match sv with
      | Some s => String.eqb (provider s) n
      | None => false
      end
   then match sv with Some s => state s | None => None end
   else None) = ownedState sv n.
Proof.
  unfold ownedState, ownedSession. destruct sv as [s|]; [|reflexivity].
  destruct (String.eqb (provider s) n); reflexivity.
Qed.

Lemma owned_session_eq (sv : option ProviderSession) (n : string) :
  (if match sv with
      | Some s => String.eqb (provider s) n
      | None => false
      end
   then sv else None) = ownedSession sv n.
Proof.
  unfold ownedSession. destruct sv as [s|]; [|reflexivity].
  destruct (String.eqb (provider s) n); reflexivity.
Qed.

(** The loop of [authenticate] over entries that are all there: it calls the
    providers [scan] goes through, in order, and lets the first outcome other
    than not-handled decide. *)
Lemma authenticateLoop_eq (sv : option ProviderSession)
    (chain : list (string * BaseAuthenticationProvider)) :
  forall w : World,
    authenticateLoop this request sv
      (map (fun kv => (fst kv, Some (snd kv))) chain) NotHandled w
    = let found := scan request sv chain in
      let w1 := after w (storage w) (map (callEvent sv) (fst found)) in
      match snd found with
      | None => (Normal NotHandled, w1)
      | Some (n, r) =>
          (Normal r,
           updatedWorld this n r (ownedSession sv n)
             (isSystemAPIRequest (options this) request)
             (after w1 (storage w) [callEvent sv n]))
      end.
Proof.
  induction chain as [|[n p] rest IH]; intros w.
  - simpl. now rewrite after_nil.
  - cbn [map fst snd authenticateLoop scan].
    rewrite owned_state_eq, owned_session_eq.
    unfold bind at 1. cbn [nonNull ret].
    unfold bind at 1. unfold call_authenticate, bind at 1, emit, ret.
    unfold bind at 1. rewrite updateSessionValue_eq.
    rewrite decisive_iff_handled.
    change {| storage := storage w; clock := clock w;
              trace := trace w ++ [AuthenticateCall n (ownedState sv n)] |}
      with (after w (storage w) [callEvent sv n]).
    destruct (provider_authenticate p request (ownedState sv n)) eqn:Hr;
      cbn [notHandled negb fst snd map].
    + rewrite updatedWorld_notHandled, IH. cbv zeta. rewrite storage_after.
      destruct (snd (scan request sv rest)) as [[m r]|];
        rewrite !after_after; reflexivity.
    + cbv zeta. cbn [map]. rewrite after_nil. reflexivity.
    + cbv zeta. cbn [map]. rewrite after_nil. reflexivity.
    + cbv zeta. cbn [map]. rewrite after_nil. reflexivity.
Qed.

End Loop.

Section Calls.

Context {ext : Externals}.
Variable this : Authenticator.

Lemma has_get (k : string) :
  JSMap.has (providers this) k = true ->
  exists p, JSMap.get (providers this) k = Some p.
Proof.
  unfold JSMap.has. destruct (JSMap.get (providers this) k) as [p|];
    [eauto | discriminate].
Qed.

Lemma validSession_registered (s : option ProviderSession) sv :
  validSession this s = Some sv ->
  s = Some sv /\ JSMap.has (providers this) (provider sv) = true.
Proof.
  unfold validSession. destruct s as [sv'|]; [|discriminate].
  destruct (JSMap.has (providers this) (provider sv')) eqn:H; [|discriminate].
  intros E; inversion E; subst. auto.
Qed.

Lemma validSession_of_registered sv p :
  JSMap.get (providers this) (provider sv) = Some p ->
  validSession this (Some sv) = Some sv.
Proof. intros H. unfold validSession, JSMap.has. now rewrite H. Qed.

Lemma providerIterator_valid (s : option ProviderSession) :
  providerIterator this (validSession this s)
  = map (fun kv => (fst kv, Some (snd kv))) (chainOf this (validSession this s)).
Proof.
  destruct (validSession this s) as [sv|] eqn:Hv; [|reflexivity].
  apply validSession_registered in Hv as [_ Hh].
  apply has_get in Hh as [p Hp].
  unfold providerIterator, chainOf. rewrite Hp. reflexivity.
Qed.

(** [authenticate] always returns, and what it returns and leaves is what
    [scan] finds. *)
Lemma authenticate_eq (request : KibanaRequest) (w : World) :
  authenticate this request w
  = (Normal (authenticatedResult this request w),
     authenticatedWorld this request w).
Proof.
  unfold authenticate, bind. rewrite getSessionValue_eq.
  rewrite providerIterator_valid, authenticateLoop_eq.
  unfold authenticatedResult, authenticatedWorld. cbv zeta.
  rewrite storage_after.
  destruct (snd (scan request _ _)) as [[n r]|]; rewrite !after_after;
    rewrite <- ?app_assoc; reflexivity.
Qed.

(** [login] on a well-formed attempt that targets a provider which is not
    registered. *)
Lemma login_unregistered_eq (request : KibanaRequest)
    (attempt : ProviderLoginAttempt) (w : World) :
  attempt_provider attempt <> "" ->
  JSMap.get (providers this) (attempt_provider attempt) = None ->
  login this request attempt w = (Normal NotHandled, w).
Proof.
  intros Hne Hp. unfold login, assertLoginAttempt.
  apply String.eqb_neq in Hne. rewrite Hne, Hp. reflexivity.
Qed.

(** [login] on a well-formed attempt that targets a registered provider. *)
Lemma login_eq (request : KibanaRequest) (attempt : ProviderLoginAttempt)
    (p : BaseAuthenticationProvider) (w : World) :
  attempt_provider attempt <> "" ->
  JSMap.get (providers this) (attempt_provider attempt) = Some p ->
  login this request attempt w
  = (Normal (provider_login p request (attempt_value attempt)
               (ownedState (validSession this (storage w))
                  (attempt_provider attempt))),
     loggedInWorld this request (attempt_provider attempt)
       (attempt_value attempt) p w).
Proof.
  intros Hne Hp. unfold login, assertLoginAttempt.
  apply String.eqb_neq in Hne. rewrite Hne, Hp.
  unfold bind at 1. cbn [ret]. unfold bind at 1. rewrite getSessionValue_eq.
  unfold loggedInWorld, loginReadEvents, ownedState, ownedSession. cbv zeta.
  set (name := attempt_provider attempt).
  destruct (validSession this (storage w)) as [sv|]; cbn [negb].
  - destruct (String.eqb (provider sv) name); cbn [negb].
    + unfold bind at 1. cbn [ret]. unfold bind at 1.
      unfold call_login, bind at 1, emit, ret. cbn [storage clock trace after].
      unfold bind at 1.
      destruct (shouldClearState _ || failedUnauthorized _); cbn [andb].
      * unfold sessionStorage_clear, after; cbn. now rewrite <- !app_assoc.
      * destruct (shouldUpdateState _).
        -- unfold bind. rewrite sessionExpires_eq.
           unfold sessionStorage_set, after; cbn. now rewrite <- !app_assoc.
        -- unfold ret, after; cbn. now rewrite <- !app_assoc.
    + unfold bind at 1. unfold bind at 1, sessionStorage_clear. cbn [ret].
      unfold bind at 1.
      unfold call_login, bind at 1, emit, ret. cbn [storage clock trace after].
      unfold bind at 1. cbn [andb].
      destruct (shouldUpdateState _).
      * unfold bind. rewrite sessionExpires_eq.
        unfold sessionStorage_set, after; cbn. now rewrite <- !app_assoc.
      * unfold ret, after; cbn. now rewrite <- !app_assoc.
  - unfold bind at 1. cbn [ret]. unfold bind at 1.
    unfold call_login, bind at 1, emit, ret. cbn [storage clock trace after].
    unfold bind at 1. cbn [andb].
    destruct (shouldUpdateState _).
    + unfold bind. rewrite sessionExpires_eq.
      unfold sessionStorage_set, after; cbn. now rewrite <- !app_assoc.
    + unfold ret, after; cbn. now rewrite <- !app_assoc.
Qed.

End Calls.

(** ** The registry *)

Section Registry.

Variable V : Type.
Implicit Types (m : JSMap.t V) (k : string) (v : V).

Lemma filter_andb {A} (p q : A -> bool) (l : list A) :
  filter (fun x => p x && q x) l = filter q (filter p l).
Proof.
  induction l as [|x l IH]; simpl; [reflexivity|].
  destruct (p x); simpl; [|assumption].
  destruct (q x); now rewrite IH.
Qed.

Lemma filter_comm {A} (p q : A -> bool) (l : list A) :
  filter p (filter q l) = filter q (filter p l).
Proof.
  rewrite <- !filter_andb. apply filter_ext. intros x. apply andb_comm.
Qed.

Lemma filter_absorb {A} (p q : A -> bool) (l : list A) :
  (forall x, p x = true -> q x = true) ->
  filter p (filter q l) = filter p l.
Proof.
  intros H. rewrite <- filter_andb. apply filter_ext. intros x.
  destruct (p x) eqn:Hp; [rewrite (H x Hp)|destruct (q x)]; reflexivity.
Qed.

Lemma firstOccurrences_filter (p : string -> bool) (l : list string) :
  firstOccurrences (filter p l) = filter p (firstOccurrences l).
Proof.
  induction l as [|x l IH]; simpl; [reflexivity|].
  destruct (p x) eqn:Hp; simpl; rewrite ?Hp, IH.
  - f_equal. apply filter_comm.
  - symmetry. apply filter_absorb. intros y Hy.
    destruct (String.eqb_spec y x); [congruence|reflexivity].
Qed.

Lemma firstOccurrences_NoDup (l : list string) : NoDup (firstOccurrences l).
Proof.
  induction l as [|x l IH]; simpl; constructor.
  - rewrite filter_In. intros [_ H]. now rewrite String.eqb_refl in H.
  - now apply NoDup_filter.
Qed.

Lemma firstOccurrences_of_NoDup (l : list string) :
  NoDup l -> firstOccurrences l = l.
Proof.
  induction 1 as [|x l Hx Hl IH]; simpl; [reflexivity|].
  rewrite IH. f_equal. apply forallb_filter_id, forallb_forall.
  intros y Hy. destruct (String.eqb_spec y x); [congruence|reflexivity].
Qed.

Lemma firstOccurrences_In (l : list string) x :
  In x (firstOccurrences l) <-> In x l.
Proof.
  induction l as [|y l IH]; simpl; [tauto|].
  rewrite filter_In, IH. destruct (String.eqb_spec x y); subst; simpl.
  - tauto.
  - intuition congruence.
Qed.

Lemma keys_set k v m :
  JSMap.keys (JSMap.set k v m)
  = if existsb (String.eqb k) (JSMap.keys m)
    then JSMap.keys m else JSMap.keys m ++ [k].
Proof.
  induction m as [|[k' v'] m IH]; simpl; [reflexivity|].
  rewrite (String.eqb_sym k k').
  destruct (String.eqb k' k); simpl; [reflexivity|].
  rewrite IH. fold (JSMap.keys m).
  destruct (existsb (String.eqb k) (JSMap.keys m)); reflexivity.
Qed.

Lemma keys_fold_set (entries : list (string * V)) :
  forall m,
    JSMap.keys (fold_left (fun m kv => JSMap.set (fst kv) (snd kv) m) entries m)
    = JSMap.keys m
      ++ firstOccurrences
           (filter (fun k => negb (existsb (String.eqb k) (JSMap.keys m)))
              (map fst entries)).
Proof.
  induction entries as [|[k v] entries IH]; intros m; simpl.
  - now rewrite app_nil_r.
  - rewrite IH, keys_set.
    destruct (existsb (String.eqb k) (JSMap.keys m)) eqn:Hk; simpl;
      [reflexivity|].
    rewrite <- app_assoc. simpl. do 2 f_equal.
    rewrite <- firstOccurrences_filter. f_equal.
    rewrite <- filter_andb. apply filter_ext. intros y.
    rewrite existsb_app. simpl. rewrite orb_false_r, negb_orb.
    reflexivity.
Qed.

(** The keys of [new Map(entries)] are the keys of the entries, each at its
    first position. *)
Lemma keys_of_entries (entries : list (string * V)) :
  JSMap.keys (JSMap.of_entries entries) = firstOccurrences (map fst entries).
Proof.
  unfold JSMap.of_entries. rewrite keys_fold_set. simpl. f_equal.
  apply forallb_filter_id, forallb_forall. reflexivity.
Qed.

Lemma get_In m k v : JSMap.get m k = Some v -> In (k, v) m.
Proof.
  induction m as [|[k' v'] m IH]; simpl; [discriminate|].
  destruct (String.eqb_spec k' k); subst.
  - intros E; inversion E; auto.
  - auto.
Qed.

Lemma get_None m k : JSMap.get m k = None -> ~ In k (JSMap.keys m).
Proof.
  induction m as [|[k' v'] m IH]; simpl; [tauto|].
  destruct (String.eqb_spec k' k); [discriminate|].
  intros H [E|Hin]; [congruence|]. now apply IH.
Qed.

Lemma In_get m k v :
  NoDup (JSMap.keys m) -> In (k, v) m -> JSMap.get m k = Some v.
Proof.
  induction m as [|[k' v'] m IH]; simpl; [tauto|].
  intros Hnd [E|Hin]; inversion Hnd as [|? ? Hk Hm]; subst.
  - inversion E; subst. now rewrite String.eqb_refl.
  - destruct (String.eqb_spec k' k); subst.
    + exfalso. apply Hk. change k with (fst (k, v)). now apply in_map.
    + auto.
Qed.

Lemma In_keys_get m k :
  In k (JSMap.keys m) -> exists v, JSMap.get m k = Some v.
Proof.
  intros H. destruct (JSMap.get m k) as [v|] eqn:E; [eauto|].
  now apply get_None in E.
Qed.

End Registry.

Section Construction.

Context {ext : Externals}.

Lemma instantiateAll_names cls authc names entries :
  instantiateAll cls authc names = Normal entries -> map fst entries = names.
Proof.
  revert entries. induction names as [|n names IH]; simpl; intros entries H.
  - inversion H; reflexivity.
  - destruct (instantiateProvider cls n (authc n)); [|discriminate].
    destruct (instantiateAll cls authc names) as [es|]; [|discriminate].
    inversion H; subst. simpl. now rewrite (IH es).
Qed.

Lemma instantiateAll_supported cls authc names entries n :
  instantiateAll cls authc names = Normal entries -> In n names ->
  exists p, JSMap.get (providerMap cls) n = Some p.
Proof.
  revert entries. induction names as [|n' names IH]; simpl; intros entries H Hin.
  - contradiction.
  - unfold instantiateProvider in H.
    destruct (JSMap.get (providerMap cls) n') as [p|] eqn:Hp; [|discriminate].
    destruct (p (authc n')); [|discriminate].
    destruct (instantiateAll cls authc names) as [es|]; [|discriminate].
    destruct Hin as [->|Hin]; [eauto|]. now apply (IH es).
Qed.

Lemma providerMap_supported cls n p :
  JSMap.get (providerMap cls) n = Some p ->
  In n ["basic"; "kerberos"; "saml"; "token"; "oidc"].
Proof.
  intros H. apply get_In in H.
  change n with (fst (n, p)).
  change ["basic"; "kerberos"; "saml"; "token"; "oidc"]
    with (map fst (providerMap cls)).
  now apply in_map.
Qed.

(** What the constructor establishes. *)
Lemma newAuthenticator_registry opts this :
  newAuthenticator opts = Normal this ->
  options this = opts /\ ttl this = sessionTimeout opts
  /\ authProviders opts <> []
  /\ JSMap.keys (providers this) = firstOccurrences (authProviders opts)
  /\ NoDup (JSMap.keys (providers this))
  /\ forall k, In k (JSMap.keys (providers this)) ->
               In k ["basic"; "kerberos"; "saml"; "token"; "oidc"].
Proof.
  unfold newAuthenticator. intros H.
  destruct (authProviders opts) as [|n0 names] eqn:Hnames; [discriminate|].
  rewrite <- Hnames in *.
  destruct (instantiateAll (classes opts) (authc opts) (authProviders opts))
    as [es|] eqn:He; [|discriminate].
  inversion H; subst; simpl.
  assert (Hk : JSMap.keys (JSMap.of_entries es)
               = firstOccurrences (authProviders opts)).
  { rewrite keys_of_entries. now rewrite (instantiateAll_names _ _ _ He). }
  repeat split; try assumption.
  - rewrite Hnames. discriminate.
  - rewrite Hk. apply firstOccurrences_NoDup.
  - intros k Hin. rewrite Hk in Hin. apply -> firstOccurrences_In in Hin.
    destruct (instantiateAll_supported _ _ _ k He Hin) as [p Hp].
    now apply providerMap_supported in Hp.
Qed.


Lemma registry_nonempty opts this :
  newAuthenticator opts = Normal this -> providers this <> [].
Proof.
  intros Hnew. apply newAuthenticator_registry in Hnew.
  destruct Hnew as (_ & _ & Hne & Hk & _).
  intros E. rewrite E in Hk. simpl in Hk.
  destruct (authProviders opts); [now apply Hne|discriminate].
Qed.

End Construction.

Section Scanning.

Context {ext : Externals}.
Variable this : Authenticator.
Variable request : KibanaRequest.

(** [scan] stops at the first entry whose outcome is not not-handled. *)
Lemma scan_spec (sv : option ProviderSession)
    (chain : list (string * BaseAuthenticationProvider)) :
  match snd (scan request sv chain) with
  | None =>
      fst (scan request sv chain) = map fst chain
      /\ Forall (fun kv => entryOutcome request sv kv = NotHandled) chain
  | Some (n, r) =>
      exists pre p post,
        chain = pre ++ (n, p) :: post
        /\ fst (scan request sv chain) = map fst pre
        /\ Forall (fun kv => entryOutcome request sv kv = NotHandled) pre
        /\ r = entryOutcome request sv (n, p)
        /\ notHandled r = false
  end.
Proof.
  induction chain as [|[n p] rest IH]; simpl.
  - split; [reflexivity|constructor].
  - destruct (provider_authenticate p request (ownedState sv n)) eqn:Hr;
      simpl.
    + destruct (snd (scan request sv rest)) as [[m r]|].
      * destruct IH as (pre & q & post & -> & Hf & Hall & -> & Hn).
        exists ((n, p) :: pre), q, post. simpl. rewrite Hf.
        repeat split; auto.
      * destruct IH as [Hf Hall]. rewrite Hf. split; [reflexivity|].
        constructor; auto.
    + exists [], p, rest. simpl. unfold entryOutcome; simpl. rewrite Hr. auto.
    + exists [], p, rest. simpl. unfold entryOutcome; simpl. rewrite Hr. auto.
    + exists [], p, rest. simpl. unfold entryOutcome; simpl. rewrite Hr. auto.
Qed.

Lemma ownedSession_owner (sv : ProviderSession) :
  ownedSession (Some sv) (provider sv) = Some sv.
Proof. unfold ownedSession. now rewrite String.eqb_refl. Qed.

Lemma ownedState_owner (sv : ProviderSession) :
  ownedState (Some sv) (provider sv) = state sv.
Proof. unfold ownedState. now rewrite ownedSession_owner. Qed.

Lemma ownedSession_other (sv : ProviderSession) (n : string) :
  String.eqb n (provider sv) = false -> ownedSession (Some sv) n = None.
Proof. unfold ownedSession. rewrite String.eqb_sym. now intros ->. Qed.

Lemma ownedState_other (sv : ProviderSession) (n : string) :
  String.eqb n (provider sv) = false -> ownedState (Some sv) n = None.
Proof. intros H. unfold ownedState. now rewrite ownedSession_other. Qed.

Lemma chainOf_owned (sv : ProviderSession) (p : BaseAuthenticationProvider) :
  JSMap.get (providers this) (provider sv) = Some p ->
  chainOf this (Some sv)
  = (provider sv, p)
    :: filter (fun kv => negb (String.eqb (fst kv) (provider sv)))
         (providers this).
Proof. intros H. unfold chainOf. now rewrite H. Qed.

(** The names of the chain are the visit order. *)
Lemma chainOf_names (s : option ProviderSession) :
  map fst (chainOf this (validSession this s))
  = visitOrder this (validSession this s).
Proof.
  destruct (validSession this s) as [sv|] eqn:Hv; [|reflexivity].
  apply validSession_registered in Hv as [_ Hh].
  apply has_get in Hh as [p Hp].
  rewrite (chainOf_owned _ Hp). unfold visitOrder, JSMap.keys. simpl. f_equal.
  clear Hp. induction (providers this) as [|[k v] m IH]; simpl; [reflexivity|].
  destruct (String.eqb k (provider sv)); simpl; now rewrite IH.
Qed.

(** In a registry without repeated keys every entry of the chain is the
    provider registered under its name. *)
Lemma chainOf_registered (s : option ProviderSession) n p :
  NoDup (JSMap.keys (providers this)) ->
  In (n, p) (chainOf this (validSession this s)) ->
  JSMap.get (providers this) n = Some p.
Proof.
  intros Hnd. unfold chainOf.
  destruct (validSession this s) as [sv|] eqn:Hv.
  - apply validSession_registered in Hv as [_ Hh].
    apply has_get in Hh as [q Hq]. rewrite Hq. simpl.
    intros [E|Hin].
    + now inversion E; subst.
    + apply filter_In in Hin as [Hin _]. now apply In_get.
  - now apply In_get.
Qed.

Lemma visitOrder_NoDup (s : option ProviderSession) :
  NoDup (JSMap.keys (providers this)) ->
  NoDup (visitOrder this (validSession this s)).
Proof.
  intros Hnd. unfold visitOrder.
  destruct (validSession this s) as [sv|]; [|assumption].
  constructor.
  - rewrite filter_In. intros [_ H]. now rewrite String.eqb_refl in H.
  - now apply NoDup_filter.
Qed.

(** The world [updateSessionValue] leaves differs from the one it finds by
    at most one storage operation. *)
Lemma updatedWorld_cases n r es sys (w : World) :
  updatedWorld this n r es sys w = w
  \/ updatedWorld this n r es sys w = after w None [StorageClear]
  \/ exists v, updatedWorld this n r es sys w = after w (Some v) [StorageSet v].
Proof.
  unfold updatedWorld.
  destruct (_ && negb (shouldUpdateState r)); [auto|].
  destruct (shouldClearState r || failedUnauthorized r); [auto|].
  destruct ((succeeded r || redirected r) && _); eauto.
Qed.

Lemma authenticateCalls_app (e1 e2 : list Event) :
  authenticateCalls (e1 ++ e2) = authenticateCalls e1 ++ authenticateCalls e2.
Proof.
  induction e1 as [|e e1 IH]; simpl; [reflexivity|].
  destruct e; simpl; now rewrite ?IH.
Qed.

Lemma authenticateCalls_callEvents (sv : option ProviderSession) names :
  authenticateCalls (map (callEvent sv) names)
  = map (fun n => (n, ownedState sv n)) names.
Proof. induction names as [|n names IH]; simpl; now rewrite ?IH. Qed.

Lemma authenticateCalls_readEvents (s : option ProviderSession) :
  authenticateCalls (readEvents this s) = [].
Proof.
  unfold readEvents. destruct s as [sv|]; [|reflexivity].
  destruct (JSMap.has (providers this) (provider sv)); reflexivity.
Qed.

End Scanning.

Lemma callEvents_not_mutations {ext : Externals}
    (sv : option ProviderSession) (names : list string) :
  Forall (fun e => isStorageMutation e = false) (map (callEvent sv) names).
Proof.
  apply Forall_forall. intros e He. apply in_map_iff in He as (n & <- & _).
  reflexivity.
Qed.

(** Events built from reads and provider calls contain no [set] or [clear]. *)
Ltac no_mutation :=
  repeat first
    [ apply Forall_nil
    | apply Forall_cons; [reflexivity|]
    | apply callEvents_not_mutations
    | apply Forall_app; split ].

Section Scenarios.

Context {ext : Externals}.
Variable this : Authenticator.
Variable request : KibanaRequest.

Lemma readEvents_registered (sv : ProviderSession) p :
  JSMap.get (providers this) (provider sv) = Some p ->
  readEvents this (Some sv) = [StorageGet].
Proof. intros H. unfold readEvents, JSMap.has. now rewrite H. Qed.

(** The provider that owns the session is asked first, with the state of the
    session, and decides when its outcome is not not-handled. *)
Lemma authenticate_owner_decides (w : World) sv p :
  storage w = Some sv ->
  JSMap.get (providers this) (provider sv) = Some p ->
  notHandled (provider_authenticate p request (state sv)) = false ->
  authenticate this request w
  = (Normal (provider_authenticate p request (state sv)),
     updatedWorld this (provider sv)
       (provider_authenticate p request (state sv)) (Some sv)
       (isSystemAPIRequest (options this) request)
       (after w (Some sv)
          [StorageGet; AuthenticateCall (provider sv) (state sv)])).
Proof.
  intros Hs Hp Hr. rewrite authenticate_eq.
  unfold authenticatedResult, authenticatedWorld. cbv zeta.
  rewrite Hs, (validSession_of_registered _ _ Hp), (chainOf_owned _ _ Hp).
  rewrite (readEvents_registered _ Hp).
  cbn [scan]. rewrite ownedState_owner, Hr. cbn [fst snd map app].
  rewrite ownedSession_owner, after_after. unfold callEvent.
  now rewrite ownedState_owner.
Qed.

(** When the owner of the session does not handle the request, whatever the
    other providers answer without asking for a state update leaves the
    session where it is. *)
Lemma authenticate_owner_passes (w : World) sv p r w' :
  storage w = Some sv ->
  JSMap.get (providers this) (provider sv) = Some p ->
  provider_authenticate p request (state sv) = NotHandled ->
  authenticate this request w = (Normal r, w') ->
  shouldUpdateState r = false ->
  storage w' = Some sv
  /\ Forall (fun e => isStorageMutation e = false) (newEvents w w').
Proof.
  intros Hs Hp Hr Hauth Hu. rewrite authenticate_eq in Hauth.
  inversion Hauth as [[Hres Hw]]. clear Hauth.
  unfold authenticatedResult in Hres. unfold authenticatedWorld. cbv zeta in *.
  rewrite Hs, (validSession_of_registered _ _ Hp), (chainOf_owned _ _ Hp) in *.
  rewrite (readEvents_registered _ Hp).
  cbn [scan] in *. rewrite ownedState_owner, Hr in *. cbn [notHandled fst snd] in *.
  set (others := filter _ (providers this)) in *.
  pose proof (scan_spec request (Some sv) others) as Hscan.
  destruct (snd (scan request (Some sv) others)) as [[n r0]|].
  - subst r0. destruct Hscan as (pre & q & post & Hch & _ & _ & _ & _).
    assert (Hn : String.eqb n (provider sv) = false).
    { assert (Hin : In (n, q) others) by (rewrite Hch; apply in_elt).
      apply filter_In in Hin as [_ Hin]. simpl in Hin.
      now destruct (String.eqb n (provider sv)). }
    rewrite (ownedSession_other _ _ Hn). unfold updatedWorld.
    rewrite Hu. cbn [negb andb]. rewrite after_after, storage_after.
    split; [reflexivity|]. rewrite newEvents_after. no_mutation.
  - rewrite storage_after. split; [reflexivity|]. rewrite newEvents_after.
    no_mutation.
Qed.

End Scenarios.

(** * The claims *)

Section Claims.

Context {ext : Externals}.

(** C6. A [login] whose attempt names a provider that is not in the registry
    returns not-handled and leaves the world as it found it: the storage is
    neither read, set nor cleared.  It holds for every registry, so for every
    one the constructor builds from a non-empty configuration. *)
Theorem login_unconfigured_provider_not_handled
    (this : Authenticator) (request : KibanaRequest)
    (attempt : ProviderLoginAttempt) (w : World) :
  attempt_provider attempt <> "" ->
  JSMap.get (providers this) (attempt_provider attempt) = None ->
  exists w',
    login this request attempt w = (Normal NotHandled, w')
    /\ storage w' = storage w
    /\ newEvents w w' = [].
Proof.
  intros Hne Hp. exists w. split; [now apply login_unregistered_eq|].
  split; [reflexivity|apply newEvents_same].
Qed.

(** C8. A [logout] with no session in the storage and a request that is not a
    SAML logout request returns the not-handled deauthentication outcome; the
    only storage operation is the read, and the storage stays empty. *)
Theorem logout_without_session_not_handled
    (this : Authenticator) (request : KibanaRequest) (w : World) :
  storage w = None ->
  isSAMLRequestQuery request = false ->
  exists w',
    logout this request w = (Normal DeauthNotHandled, w')
    /\ newEvents w w' = [StorageGet]
    /\ storage w' = None.
Proof.
  intros Hs Hq. exists (after w None [StorageGet]).
  rewrite newEvents_after. repeat split.
  unfold logout, bind. rewrite getSessionValue_eq, Hs. cbn [validSession readEvents].
  now rewrite Hq.
Qed.

(** C10. A session that [getSessionValue] returns names a registered provider.
    So the unchecked lookups find one: [providerIterator] yields the owner
    with its provider, [authenticate] returns normally, and [logout] reaches
    the owner's [logout] with the state of the session. *)
Theorem session_read_names_registered_provider
    (this : Authenticator) (request : KibanaRequest) (w w1 : World)
    (sv : ProviderSession) :
  getSessionValue this w = (Normal (Some sv), w1) ->
  exists p,
    JSMap.get (providers this) (provider sv) = Some p
    /\ Forall (fun e => snd e <> None) (providerIterator this (Some sv))
    /\ hd_error (providerIterator this (Some sv)) = Some (provider sv, Some p)
    /\ (exists r w', authenticate this request w = (Normal r, w'))
    /\ logout this request w
       = (Normal (provider_logout p request (state sv)),
          after w None
            [StorageGet; StorageClear; LogoutCall (provider sv) (state sv)]).
Proof.
  intros Hget. pose proof Hget as Hget'.
  rewrite getSessionValue_eq in Hget'.
  assert (Hv : validSession this (storage w) = Some sv) by congruence.
  assert (Hw : after w (validSession this (storage w))
                 (readEvents this (storage w)) = w1) by congruence.
  clear Hget'. apply validSession_registered in Hv as [Hs Hh].
  destruct (has_get _ _ Hh) as [p Hp]. exists p.
  split; [assumption|]. split; [|split; [|split]].
  - unfold providerIterator. constructor.
    + simpl. now rewrite Hp.
    + apply Forall_forall. intros e He.
      apply in_map_iff in He as (kv & <- & _). discriminate.
  - unfold providerIterator. simpl. now rewrite Hp.
  - rewrite authenticate_eq. eauto.
  - unfold logout. unfold bind at 1. rewrite Hget. rewrite <- Hw.
    rewrite Hs in *. rewrite (validSession_of_registered _ _ Hp).
    rewrite (readEvents_registered _ _ Hp).
    unfold bind at 1, sessionStorage_clear. rewrite Hp. cbn [nonNull].
    unfold bind at 1, ret. unfold call_logout, bind, emit, ret, after. simpl.
    now rewrite <- !app_assoc.
Qed.


End Claims.

Section SessionClaims.

Context {ext : Externals}.

Lemma failedUnauthorized_failed (r : AuthenticationResult) :
  failedUnauthorized r = true ->
  notHandled r = false /\ shouldUpdateState r = false
  /\ shouldClearState r = false.
Proof. destruct r; simpl; try discriminate. auto. Qed.

(** C1, as the code has it.  A [login] whose provider fails with a 401 error
    leaves no session in the storage.  An [authenticate] in which the provider
    that owns the session fails with a 401 error clears the session.  An
    [authenticate] in which the owner does not handle the request and another
    provider fails with a 401 error leaves the owner's session in the storage,
    without any [set] or [clear]. *)
Theorem unauthorized_failure_clears_owned_session
    (this : Authenticator) (request : KibanaRequest) :
  (forall attempt w r w',
      login this request attempt w = (Normal r, w') ->
      failedUnauthorized r = true ->
      storage w' = None)
  /\ (forall w sv p,
         storage w = Some sv ->
         JSMap.get (providers this) (provider sv) = Some p ->
         failedUnauthorized (provider_authenticate p request (state sv)) = true ->
         authenticate this request w
         = (Normal (provider_authenticate p request (state sv)),
            after w None
              [StorageGet; AuthenticateCall (provider sv) (state sv);
               StorageClear]))
  /\ (forall w sv p r w',
         storage w = Some sv ->
         JSMap.get (providers this) (provider sv) = Some p ->
         provider_authenticate p request (state sv) = NotHandled ->
         authenticate this request w = (Normal r, w') ->
         failedUnauthorized r = true ->
         storage w' = Some sv
         /\ Forall (fun e => isStorageMutation e = false) (newEvents w w')).
Proof.
  split; [|split].
  - intros attempt w r w' Hlogin Hr.
    unfold login in Hlogin. unfold bind at 1 in Hlogin.
    unfold assertLoginAttempt in Hlogin.
    destruct (String.eqb (attempt_provider attempt) "") eqn:Hne;
      [discriminate|]. cbn [ret] in Hlogin.
    destruct (JSMap.get (providers this) (attempt_provider attempt))
      as [p|] eqn:Hp.
    + fold (assertLoginAttempt attempt) in Hlogin.
      apply String.eqb_neq in Hne.
      pose proof (login_eq this request attempt w Hne Hp) as Heq.
      unfold login in Heq. unfold bind at 1 in Heq.
      unfold assertLoginAttempt in Heq.
      apply String.eqb_neq in Hne. rewrite Hne, Hp in Heq. cbn [ret] in Heq.
      rewrite Heq in Hlogin. inversion Hlogin as [[Hres Hw]]. clear Hlogin Heq.
      unfold loggedInWorld. cbv zeta. rewrite Hres, Hr, orb_true_r.
      destruct (failedUnauthorized_failed _ Hr) as (_ & Hu & _). rewrite Hu.
      destruct (ownedSession _ _); reflexivity.
    + inversion Hlogin; subst. discriminate.
  - intros w sv p Hs Hp Hr.
    destruct (failedUnauthorized_failed _ Hr) as (Hn & Hu & Hc).
    rewrite (authenticate_owner_decides _ _ _ Hs Hp Hn).
    unfold updatedWorld. rewrite Hr, orb_true_r. cbn [andb].
    now rewrite after_after.
  - intros w sv p r w' Hs Hp H0 Hauth Hr.
    destruct (failedUnauthorized_failed _ Hr) as (_ & Hu & _).
    exact (authenticate_owner_passes _ _ _ Hs Hp H0 Hauth Hu).
Qed.

(** C9. With a session owned by one provider, when that provider does not
    handle the request and another provider succeeds or redirects asking
    neither for an update nor for a clearing of the state, the owner's session
    is still in the storage, and no [set] or [clear] has happened. *)
Theorem foreign_success_leaves_session_unchanged
    (this : Authenticator) (request : KibanaRequest) (w w' : World)
    (sv : ProviderSession) (p : BaseAuthenticationProvider)
    (r : AuthenticationResult) :
  storage w = Some sv ->
  JSMap.get (providers this) (provider sv) = Some p ->
  provider_authenticate p request (state sv) = NotHandled ->
  authenticate this request w = (Normal r, w') ->
  succeeded r || redirected r = true ->
  intent r = KeepState ->
  storage w' = storage w
  /\ Forall (fun e => isStorageMutation e = false) (newEvents w w').
Proof.
  intros Hs Hp H0 Hauth _ Hi. rewrite Hs.
  apply (authenticate_owner_passes _ _ _ Hs Hp H0 Hauth).
  unfold shouldUpdateState. now rewrite Hi.
Qed.


End SessionClaims.

(** Case analysis on what [updateSessionValue] did to the world. *)
Ltac split_updatedWorld :=
  match goal with
  | |- context [updatedWorld ?a ?n ?r ?es ?sys ?w] =>
      let E := fresh "E" in
      let v := fresh "v" in
      destruct (updatedWorld_cases a n r es sys w) as [E|[E|[v E]]];
      rewrite E
  end.

Section ChainClaims.

Context {ext : Externals}.
Variable this : Authenticator.
Variable request : KibanaRequest.

Lemma outcomes_of_entries (sv : option ProviderSession)
    (l : list (string * BaseAuthenticationProvider)) :
  (forall n p, In (n, p) l -> JSMap.get (providers this) n = Some p) ->
  Forall (fun kv => entryOutcome request sv kv = NotHandled) l ->
  Forall (fun n => outcomeOf this request sv n = Some NotHandled) (map fst l).
Proof.
  intros Hreg Hall. induction Hall as [|[n p] l Hkv Hall IH]; simpl;
    constructor.
  - unfold outcomeOf. rewrite (Hreg n p (or_introl eq_refl)).
    now rewrite <- Hkv.
  - apply IH. intros m q Hin. apply Hreg. now right.
Qed.

Lemma updatedWorld_calls n r es sys (w0 : World) s evs :
  authenticateCalls
    (newEvents w0 (updatedWorld this n r es sys (after w0 s evs)))
  = authenticateCalls evs.
Proof.
  destruct (updatedWorld_cases this n r es sys (after w0 s evs))
    as [E|[E|[v E]]]; rewrite E; rewrite ?after_after, newEvents_after;
    rewrite ?authenticateCalls_app; simpl; now rewrite ?app_nil_r.
Qed.

(** C2. For an authenticator the constructor has built: the registry lists
    the configured providers in configured order, each once; the visit order
    of [authenticate] is that order when no session is read, and the owner
    followed by the others in that order when one is; no provider is in it
    twice.  [authenticate] returns, and the providers it has called are an
    initial part of the visit order, each with the state of the session if it
    owns it and with none otherwise.  Either it returns not-handled, and then
    it has called the whole order and every provider answered not-handled; or
    it returns the outcome of the last provider called, which is not
    not-handled, and every provider called before answered not-handled. *)
Theorem authenticate_visits_providers_in_order
    (opts : AuthenticatorOptions) (w : World) :
  newAuthenticator opts = Normal this ->
  let sv := validSession this (storage w) in
  let order := visitOrder this sv in
  JSMap.keys (providers this) = firstOccurrences (authProviders opts)
  /\ NoDup order
  /\ exists r w' called rest,
      authenticate this request w = (Normal r, w')
      /\ authenticateCalls (newEvents w w')
         = map (fun n => (n, ownedState sv n)) called
      /\ order = called ++ rest
      /\ ((r = NotHandled /\ rest = []
           /\ Forall (fun n => outcomeOf this request sv n = Some NotHandled)
                called)
          \/ (notHandled r = false
              /\ exists pre n,
                  called = pre ++ [n]
                  /\ Forall
                       (fun m => outcomeOf this request sv m = Some NotHandled)
                       pre
                  /\ outcomeOf this request sv n = Some r)).
Proof.
  intros Hnew sv order.
  destruct (newAuthenticator_registry _ Hnew) as (_ & _ & _ & Hk & Hnd & _).
  split; [assumption|]. split; [now apply visitOrder_NoDup|].
  rewrite authenticate_eq. unfold authenticatedResult, authenticatedWorld.
  cbv zeta. fold sv.
  pose proof (scan_spec request sv (chainOf this sv)) as Hscan.
  pose proof (chainOf_names this (storage w)) as Hnames. fold sv in Hnames.
  fold order in Hnames.
  assert (Hreg : forall n p, In (n, p) (chainOf this sv) ->
                             JSMap.get (providers this) n = Some p).
  { intros n p. now apply chainOf_registered. }
  destruct (snd (scan request sv (chainOf this sv))) as [[n r]|].
  - destruct Hscan as (pre & p & post & Hch & Hf & Hall & Hr & Hn).
    exists r. eexists. exists (map fst pre ++ [n]), (map fst post).
    split; [reflexivity|]. split; [|split].
    + rewrite after_after, updatedWorld_calls, Hf.
      rewrite !authenticateCalls_app, authenticateCalls_readEvents.
      rewrite authenticateCalls_callEvents, map_app. reflexivity.
    + rewrite <- Hnames, Hch, map_app, <- app_assoc. reflexivity.
    + right. split; [assumption|]. exists (map fst pre), n.
      split; [reflexivity|]. split.
      * apply outcomes_of_entries; [|assumption].
        intros m q Hin. apply Hreg. rewrite Hch. apply in_or_app. now left.
      * unfold outcomeOf. rewrite (Hreg n p).
        -- now rewrite Hr.
        -- rewrite Hch. apply in_elt.
  - destruct Hscan as [Hf Hall].
    exists NotHandled. eexists. exists order, [].
    split; [reflexivity|]. split; [|split].
    + rewrite newEvents_after, Hf, Hnames.
      rewrite authenticateCalls_app, authenticateCalls_readEvents.
      now rewrite authenticateCalls_callEvents.
    + now rewrite app_nil_r.
    + left. split; [reflexivity|]. split; [reflexivity|].
      rewrite <- Hnames. now apply outcomes_of_entries.
Qed.

(** The owner of the session is the first provider [authenticate] calls, and
    it is passed the state of the session. *)
Lemma authenticate_owner_first (w : World) sv p :
  storage w = Some sv ->
  JSMap.get (providers this) (provider sv) = Some p ->
  exists r w' evs,
    authenticate this request w = (Normal r, w')
    /\ newEvents w w'
       = StorageGet :: AuthenticateCall (provider sv) (state sv) :: evs.
Proof.
  intros Hs Hp.
  destruct (notHandled (provider_authenticate p request (state sv))) eqn:Hn.
  - rewrite authenticate_eq. unfold authenticatedWorld. cbv zeta.
    rewrite Hs, (validSession_of_registered _ _ Hp), (chainOf_owned _ _ Hp).
    rewrite (readEvents_registered _ _ Hp).
    cbn [scan]. rewrite ownedState_owner, Hn. cbn [fst snd map app].
    change (callEvent (Some sv) (provider sv))
      with (AuthenticateCall (provider sv)
              (ownedState (Some sv) (provider sv))).
    rewrite ownedState_owner.
    destruct (snd (scan request (Some sv) _)) as [[n r]|].
    + split_updatedWorld; rewrite ?after_after; do 3 eexists;
        (split; [reflexivity|]); rewrite newEvents_after; reflexivity.
    + do 3 eexists. split; [reflexivity|]. rewrite newEvents_after.
      reflexivity.
  - rewrite (authenticate_owner_decides this request w Hs Hp Hn).
    split_updatedWorld; rewrite ?after_after; do 3 eexists;
      (split; [reflexivity|]); rewrite newEvents_after; reflexivity.
Qed.

End ChainClaims.

Section RoundTrip.

Context {ext : Externals}.
Variable this : Authenticator.

Lemma loginReadEvents_no_set (name : string) (s : option ProviderSession)
    (v : ProviderSession) :
  ~ In (StorageSet v) (loginReadEvents this name s).
Proof.
  unfold loginReadEvents, readEvents, validSession.
  destruct s as [sv|]; simpl.
  - destruct (JSMap.has (providers this) (provider sv)); simpl.
    + destruct (String.eqb (provider sv) name); simpl;
        intuition discriminate.
    + intuition discriminate.
  - intuition discriminate.
Qed.

(** What a [login] that has written a session has written: the state its
    outcome carries, under the name of the targeted provider, which is
    registered; and this is what the storage holds afterwards. *)
Lemma login_written_session (request : KibanaRequest)
    (attempt : ProviderLoginAttempt) (w0 w1 : World)
    (r0 : AuthenticationResult) (v : ProviderSession) :
  login this request attempt w0 = (Normal r0, w1) ->
  In (StorageSet v) (newEvents w0 w1) ->
  storage w1 = Some v
  /\ provider v = attempt_provider attempt
  /\ state v = result_state r0
  /\ expires v = expiresAt (ttl this) (clock w0)
  /\ exists p, JSMap.get (providers this) (attempt_provider attempt) = Some p.
Proof.
  intros Hlogin Hin.
  destruct (String.eqb (attempt_provider attempt) "") eqn:Hne.
  { unfold login, bind, assertLoginAttempt in Hlogin. rewrite Hne in Hlogin.
    discriminate. }
  apply String.eqb_neq in Hne.
  destruct (JSMap.get (providers this) (attempt_provider attempt))
    as [p|] eqn:Hp.
  2:{ rewrite (login_unregistered_eq this request attempt w0 Hne Hp) in Hlogin.
      assert (Hw : w0 = w1) by congruence. subst w1.
      rewrite newEvents_same in Hin. contradiction. }
  rewrite (login_eq this request attempt w0 Hne Hp) in Hlogin.
  match type of Hlogin with
  | (Normal ?r, ?w) = _ =>
      assert (Hr : r = r0) by congruence; assert (Hw : w = w1) by congruence
  end.
  clear Hlogin. subst w1. unfold loggedInWorld in Hin |- *. cbv zeta in *.
  rewrite Hr in Hin |- *.
  destruct (_ && (shouldClearState r0 || failedUnauthorized r0)).
  - rewrite after_after, newEvents_after in Hin.
    apply in_app_or in Hin as [Hin|[E|[]]]; [|discriminate].
    apply in_app_or in Hin as [Hin|[E|[]]]; [|discriminate].
    now apply loginReadEvents_no_set in Hin.
  - destruct (shouldUpdateState r0).
    + rewrite after_after, newEvents_after in Hin.
      apply in_app_or in Hin as [Hin|[E|[]]].
      * apply in_app_or in Hin as [Hin|[E|[]]]; [|discriminate].
        now apply loginReadEvents_no_set in Hin.
      * inversion E; subst. rewrite storage_after. simpl. eauto 6.
    + rewrite newEvents_after in Hin.
      apply in_app_or in Hin as [Hin|[E|[]]]; [|discriminate].
      now apply loginReadEvents_no_set in Hin.
Qed.

(** C7, as the code has it.  Take a session [v] written by a [login] and an
    [authenticate] that meets it in the storage.  The first provider
    [authenticate] calls is the owner of [v], with the state of [v].  When the
    owner succeeds without asking for a state update and the request is not a
    system API request, its outcome is returned and no session with another
    state is written.  If the outcome does not ask to clear the state either,
    the session is written again and left in the storage with the state and
    the provider of [v] and the expiry of the time of the call.  If the
    outcome asks to clear the state, the session is cleared and none is
    written. *)
Theorem session_state_round_trip
    (request : KibanaRequest) (attempt : ProviderLoginAttempt)
    (w0 w1 : World) (r0 : AuthenticationResult) (v : ProviderSession)
    (request' : KibanaRequest) (w2 : World) :
  login this request attempt w0 = (Normal r0, w1) ->
  In (StorageSet v) (newEvents w0 w1) ->
  storage w2 = storage w1 ->
  exists p r w3 evs,
    JSMap.get (providers this) (provider v) = Some p
    /\ storage w1 = Some v
    /\ state v = result_state r0
    /\ authenticate this request' w2 = (Normal r, w3)
    /\ newEvents w2 w3
       = StorageGet :: AuthenticateCall (provider v) (state v) :: evs
    /\ (succeeded (provider_authenticate p request' (state v)) = true ->
        shouldUpdateState (provider_authenticate p request' (state v)) = false ->
        isSystemAPIRequest (options this) request' = false ->
        r = provider_authenticate p request' (state v)
        /\ (forall v', In (StorageSet v') evs -> state v' = state v)
        /\ (shouldClearState r = false ->
            storage w3
            = Some {| state := state v; provider := provider v;
                      expires := expiresAt (ttl this) (clock w2) |}
            /\ evs = [StorageSet
                        {| state := state v; provider := provider v;
                           expires := expiresAt (ttl this) (clock w2) |}])
        /\ (shouldClearState r = true ->
            storage w3 = None /\ evs = [StorageClear])).
Proof.
  intros Hlogin Hin Hst.
  pose proof login_written_session as Hwritten.
  specialize (Hwritten _ _ _ _ _ _ Hlogin Hin).
  destruct Hwritten as (Hs1 & Hname & Hstate & _ & p & Hp).
  rewrite <- Hname in Hp. rewrite Hs1 in Hst.
  set (out := provider_authenticate p request' (state v)).
  destruct (succeeded out) eqn:Hsucc.
  - assert (Hn : notHandled out = false) by (destruct out; simpl in *; congruence).
    assert (Hf : failedUnauthorized out = false)
      by (destruct out; simpl in *; congruence).
    pose proof (authenticate_owner_decides this request' w2 Hst Hp Hn) as Hauth.
    fold out in Hauth.
    set (w3 := updatedWorld this (provider v) out (Some v)
                 (isSystemAPIRequest (options this) request')
                 (after w2 (Some v)
                    [StorageGet; AuthenticateCall (provider v) (state v)]))
      in *.
    exists p, out, w3, (skipn 2 (newEvents w2 w3)).
    repeat (split; [assumption|]). split.
    + subst w3. split_updatedWorld; rewrite ?after_after, newEvents_after;
        reflexivity.
    + intros _ Hu Hsys. split; [reflexivity|].
      fold out in Hu. subst w3. unfold updatedWorld.
      rewrite Hu, Hsys, Hsucc, Hf.
      cbn [negb andb orb].
      destruct (shouldClearState out) eqn:Hc; cbn [orb].
      * rewrite after_after, newEvents_after. cbn [app skipn].
        split; [|split].
        -- intros v' [E|[]]. discriminate.
        -- discriminate.
        -- intros _. split; reflexivity.
      * rewrite after_after, newEvents_after. cbn [app skipn].
        split; [|split].
        -- intros v' [E|[]]. inversion E. reflexivity.
        -- intros _. split; reflexivity.
        -- discriminate.
  - destruct (authenticate_owner_first this request' w2 Hst Hp)
      as (r & w3 & evs & Hauth & Hev).
    exists p, r, w3, evs. repeat (split; [assumption|]).
    fold out. rewrite Hsucc. discriminate.
Qed.

End RoundTrip.

Section StoredEnvelope.

Context {ext : Externals}.
Variable this : Authenticator.
Variable request : KibanaRequest.

Lemma expiresAt_unset (now : Z) : expiresAt None now = None.
Proof. reflexivity. Qed.

Lemma expiresAt_nonzero (t now : Z) :
  t <> 0 -> expiresAt (Some t) now = Some (now + t).
Proof. intros H. unfold expiresAt. apply Z.eqb_neq in H. now rewrite H. Qed.

Lemma expiresAt_zero (now : Z) : expiresAt (Some 0) now = Some 0.
Proof. reflexivity. Qed.

(** The session [login] stores for an outcome that asks for a state update:
    the state of the outcome, the name of the targeted provider, and the
    value of [this.ttl && Date.now() + this.ttl]. *)
Lemma login_update_stores_envelope (attempt : ProviderLoginAttempt)
    (p : BaseAuthenticationProvider) (w : World) (s : State) :
  attempt_provider attempt <> "" ->
  JSMap.get (providers this) (attempt_provider attempt) = Some p ->
  intent (provider_login p request (attempt_value attempt)
            (ownedState (validSession this (storage w))
               (attempt_provider attempt))) = UpdateState s ->
  exists r w',
    login this request attempt w = (Normal r, w')
    /\ intent r = UpdateState s
    /\ storage w'
       = Some {| state := Some s; provider := attempt_provider attempt;
                 expires := expiresAt (ttl this) (clock w) |}.
Proof.
  intros Hne Hp Hi. rewrite (login_eq this request attempt w Hne Hp).
  do 2 eexists. split; [reflexivity|]. split; [assumption|].
  unfold loggedInWorld. cbv zeta.
  unfold shouldClearState, shouldUpdateState, result_state. rewrite Hi.
  assert (Hf : failedUnauthorized
                 (provider_login p request (attempt_value attempt)
                    (ownedState (validSession this (storage w))
                       (attempt_provider attempt))) = false).
  { destruct (provider_login _ _ _ _); simpl in *; congruence. }
  rewrite Hf, andb_false_r. reflexivity.
Qed.

(** The session [authenticate] stores for an outcome that asks for a state
    update: the state of the outcome, the name of the provider whose outcome
    it is, and the value of [this.ttl && Date.now() + this.ttl]. *)
Lemma authenticate_update_stores_envelope (w w' : World)
    (r : AuthenticationResult) (s : State) :
  authenticate this request w = (Normal r, w') ->
  intent r = UpdateState s ->
  exists n p,
    In (n, p) (chainOf this (validSession this (storage w)))
    /\ r = provider_authenticate p request
             (ownedState (validSession this (storage w)) n)
    /\ storage w'
       = Some {| state := Some s; provider := n;
                 expires := expiresAt (ttl this) (clock w) |}.
Proof.
  intros Hauth Hi. rewrite authenticate_eq in Hauth.
  assert (Hr : authenticatedResult this request w = r) by congruence.
  assert (Hw : authenticatedWorld this request w = w') by congruence.
  clear Hauth. subst w'. unfold authenticatedResult in Hr.
  unfold authenticatedWorld. cbv zeta in *.
  pose proof (scan_spec request (validSession this (storage w))
                (chainOf this (validSession this (storage w)))) as Hscan.
  destruct (snd (scan request _ _)) as [[n r']|].
  - subst r'. destruct Hscan as (pre & p & post & Hch & _ & _ & Hr & _).
    exists n, p. split; [rewrite Hch; apply in_elt|]. split; [assumption|].
    unfold updatedWorld, shouldClearState, shouldUpdateState, result_state.
    rewrite Hi.
    assert (Hf : failedUnauthorized r = false)
      by (destruct r; simpl in *; congruence).
    assert (Hok : succeeded r || redirected r = true)
      by (destruct r; simpl in *; congruence).
    rewrite Hf, Hok, andb_false_r. reflexivity.
  - subst r. discriminate.
Qed.

End StoredEnvelope.

(** * The claims on a concrete installation *)

Section Concrete.

Import Demo.

(** C1. A provider that does not own the session fails with 401 and the
    session stays: with the providers kerberos and token configured and a
    session owned by kerberos, kerberos does not handle the request, token
    fails with a 401 error, and the session of kerberos is still in the
    storage. *)
Lemma unauthorized_failure_of_other_provider_keeps_session :
  authenticate (Demo.build ["kerberos"; "token"] (Some 3600000))
    Demo.userRequest (Demo.world (Some (Demo.session "kerberos" 1)) 1000)
  = (Normal (Failed (Some 401)),
     {| storage := Some (Demo.session "kerberos" 1);
        clock := 1000;
        trace := [StorageGet; AuthenticateCall "kerberos" (Some 1%nat);
                  AuthenticateCall "token" None] |})
  /\ failedUnauthorized (Failed (Some 401))
     = true.
Proof. split; reflexivity. Qed.

Lemma unauthorized_failure_clears_owned_session_witness :
  let this := Demo.build ["kerberos"; "token"; "saml"; "basic"] (Some 3600000) in
  storage
    (snd (login this Demo.userRequest (Demo.attempt "basic" "guest")
            (Demo.world (Some (Demo.session "basic" 1)) 1000))) = None
  /\ authenticate this Demo.userRequest
       (Demo.world (Some (Demo.session "saml" 0)) 1000)
     = (Normal (Failed (Some 401)),
        after (Demo.world (Some (Demo.session "saml" 0)) 1000) None
          [StorageGet; AuthenticateCall "saml" (Some 0%nat); StorageClear])
  /\ storage
       (snd (authenticate this Demo.userRequest
               (Demo.world (Some (Demo.session "kerberos" 1)) 1000)))
     = Some (Demo.session "kerberos" 1).
Proof.
  intros this.
  destruct (@unauthorized_failure_clears_owned_session
              Demo.ext this Demo.userRequest)
    as (Hlogin & Howner & Hother).
  split; [|split].
  - apply (Hlogin (Demo.attempt "basic" "guest")
             (Demo.world (Some (Demo.session "basic" 1)) 1000)
             (Failed (Some 401))); reflexivity.
  - apply (Howner _ (Demo.session "saml" 0) Demo.saml); reflexivity.
  - apply (Hother (Demo.world (Some (Demo.session "kerberos" 1)) 1000)
             (Demo.session "kerberos" 1) Demo.passive (Failed (Some 401)));
      reflexivity.
Defined.



(** C5. With a session timeout of 0 the session stored by [login] at time
    1000 expires at 0, not at 1000 + 0; the provider and the state are those
    of the claim. *)
Theorem zero_ttl_session_expires_at_zero :
  let this := Demo.build ["basic"] (Some 0) in
  ttl this = Some 0
  /\ login this Demo.userRequest (Demo.attempt "basic" "elastic")
       (Demo.world None 1000)
     = (Normal (Succeeded "elastic" (UpdateState 1%nat)),
        {| storage := Some {| provider := "basic"; expires := Some 0;
                              state := Some 1%nat |};
           clock := 1000;
           trace := [StorageGet; LoginCall "basic" "elastic" None;
                     StorageSet {| provider := "basic"; expires := Some 0;
                                   state := Some 1%nat |}] |})
  /\ Some 0 <> Some (1000 + 0).
Proof. repeat split. discriminate. Qed.

Lemma authenticate_visits_providers_in_order_witness :
  let opts :=
    Demo.optionsFor ["kerberos"; "saml"; "kerberos"; "basic"] (Some 3600000) in
  let this :=
    Demo.build ["kerberos"; "saml"; "kerberos"; "basic"] (Some 3600000) in
  let w := Demo.world (Some (Demo.session "saml" 1)) 1000 in
  newAuthenticator opts = Normal this
  /\ JSMap.keys (providers this) = firstOccurrences (authProviders opts)
  /\ NoDup (visitOrder this (validSession this (storage w)))
  /\ exists r w' called rest,
      authenticate this Demo.userRequest w = (Normal r, w')
      /\ authenticateCalls (newEvents w w')
         = map (fun n => (n, ownedState (validSession this (storage w)) n))
             called
      /\ visitOrder this (validSession this (storage w)) = called ++ rest.
Proof.
  intros opts this w. split; [reflexivity|].
  destruct (@authenticate_visits_providers_in_order
              Demo.ext this Demo.userRequest opts w eq_refl)
    as (Hkeys & Hnodup & r & w' & called & rest & Hauth & Hcalls & Horder & _).
  split; [exact Hkeys|]. split; [exact Hnodup|].
  exists r, w', called, rest. repeat split; assumption.
Defined.


Lemma login_unconfigured_provider_not_handled_witness :
  let this := Demo.build ["basic"] None in
  let w := Demo.world (Some (Demo.session "basic" 1)) 1000 in
  exists w',
    login this Demo.userRequest (Demo.attempt "saml" "response") w
    = (Normal NotHandled, w')
    /\ storage w' = Some (Demo.session "basic" 1)
    /\ newEvents w w' = [].
Proof.
  intros this w.
  apply (@login_unconfigured_provider_not_handled
           Demo.ext this Demo.userRequest (Demo.attempt "saml" "response") w);
    [discriminate | reflexivity].
Defined.

(** C7. A session written by [login] is met by an [authenticate] on a user
    request whose owner succeeds and asks for the state to be cleared, which
    is no request for a state update: the session is cleared and no session
    is written again. *)
Lemma round_trip_clear_request_rewrites_nothing :
  let this := Demo.buildHandover ["basic"] (Some 3600000) in
  let v := {| provider := "basic"; expires := Some 3601000;
              state := Some 1%nat |} in
  login this Demo.userRequest (Demo.attempt "basic" "elastic")
    (Demo.world None 1000)
  = (Normal (Succeeded "elastic" (UpdateState 1%nat)),
     {| storage := Some v; clock := 1000;
        trace := [StorageGet; LoginCall "basic" "elastic" None;
                  StorageSet v] |})
  /\ authenticate this Demo.userRequest (Demo.world (Some v) 2000)
     = (Normal (Succeeded "elastic" ClearState),
        {| storage := None; clock := 2000;
           trace := [StorageGet; AuthenticateCall "basic" (Some 1%nat);
                     StorageClear] |})
  /\ succeeded (Succeeded "elastic" ClearState) = true
  /\ shouldUpdateState (Succeeded "elastic" ClearState) = false
  /\ isSystemAPIRequest (options this) Demo.userRequest = false.
Proof. repeat split. Qed.

Lemma session_state_round_trip_witness :
  let this := Demo.build ["basic"; "token"] (Some 3600000) in
  let w0 := Demo.world None 1000 in
  let v := {| provider := "basic"; expires := Some 3601000;
              state := Some 1%nat |} in
  let w2 := Demo.world (Some v) 2000 in
  login this Demo.userRequest (Demo.attempt "basic" "elastic") w0
  = (Normal (Succeeded "elastic" (UpdateState 1%nat)),
     after w0 (Some v)
       [StorageGet; LoginCall "basic" "elastic" None; StorageSet v])
  /\ exists r w3 evs,
      authenticate this Demo.userRequest w2 = (Normal r, w3)
      /\ newEvents w2 w3
         = StorageGet :: AuthenticateCall "basic" (Some 1%nat) :: evs.
Proof.
  intros this w0 v w2. split; [reflexivity|].
  destruct (@session_state_round_trip Demo.ext this Demo.userRequest
              (Demo.attempt "basic" "elastic") w0
              (after w0 (Some v)
                 [StorageGet; LoginCall "basic" "elastic" None; StorageSet v])
              (Succeeded "elastic" (UpdateState 1%nat)) v
              Demo.userRequest w2 eq_refl
              (or_intror (or_intror (or_introl eq_refl))) eq_refl)
    as (p & r & w3 & evs & _ & _ & _ & Hauth & Hevents & _).
  exists r, w3, evs. split; [exact Hauth | exact Hevents].
Defined.

Lemma logout_without_session_not_handled_witness :
  let this := Demo.build ["basic"; "saml"] (Some 3600000) in
  exists w',
    logout this Demo.userRequest (Demo.world None 1000)
    = (Normal DeauthNotHandled, w')
    /\ newEvents (Demo.world None 1000) w' = [StorageGet]
    /\ storage w' = None.
Proof.
  intros this.
  exact (@logout_without_session_not_handled Demo.ext this Demo.userRequest
           (Demo.world None 1000) eq_refl eq_refl).
Defined.

Lemma foreign_success_leaves_session_unchanged_witness :
  let this := Demo.build ["kerberos"; "basic"] (Some 3600000) in
  let w := Demo.world (Some (Demo.session "kerberos" 1)) 1000 in
  authenticate this Demo.headerRequest w
  = (Normal (Succeeded "elastic" KeepState),
     after w (Some (Demo.session "kerberos" 1))
       [StorageGet; AuthenticateCall "kerberos" (Some 1%nat);
        AuthenticateCall "basic" None])
  /\ storage (snd (authenticate this Demo.headerRequest w)) = storage w.
Proof.
  intros this w. split; [reflexivity|].
  exact (proj1 (@foreign_success_leaves_session_unchanged
                  Demo.ext this Demo.headerRequest w
                  (snd (authenticate this Demo.headerRequest w))
                  (Demo.session "kerberos" 1) Demo.passive
                  (Succeeded "elastic" KeepState)
                  eq_refl eq_refl eq_refl eq_refl eq_refl eq_refl)).
Defined.

Lemma session_read_names_registered_provider_witness :
  let this := Demo.build ["basic"; "token"] (Some 3600000) in
  let w := Demo.world (Some (Demo.session "token" 3)) 1000 in
  getSessionValue this w
  = (Normal (Some (Demo.session "token" 3)),
     after w (Some (Demo.session "token" 3)) [StorageGet])
  /\ exists p, JSMap.get (providers this) "token" = Some p.
Proof.
  intros this w. split; [reflexivity|].
  destruct (@session_read_names_registered_provider
              Demo.ext this Demo.userRequest w
              (after w (Some (Demo.session "token" 3)) [StorageGet])
              (Demo.session "token" 3) eq_refl)
    as (p & Hp & _).
  exists p. exact Hp.
Defined.

End Concrete.

(** * Further properties of the code *)

(** ** The constructor and the registry *)

Section ConstructorProperties.

Context {ext : Externals}.

Lemma providerMap_keys (cls : ProviderClasses) :
  JSMap.keys (providerMap cls) = supportedProviders.
Proof. reflexivity. Qed.

Lemma get_not_in_keys {V} (m : JSMap.t V) (k : string) :
  ~ In k (JSMap.keys m) -> JSMap.get m k = None.
Proof.
  intros H. destruct (JSMap.get m k) as [v|] eqn:E; [|reflexivity].
  exfalso. apply H. apply get_In in E.
  change k with (fst (k, v)). now apply in_map.
Qed.

Lemma instantiateProvider_unsupported (cls : ProviderClasses) (n : string) o :
  ~ In n supportedProviders ->
  exists msg, instantiateProvider cls n o = Threw msg.
Proof.
  intros H. unfold instantiateProvider.
  rewrite (@get_not_in_keys _ (providerMap cls) n); [eauto|].
  now rewrite providerMap_keys.
Qed.

Lemma instantiateAll_all cls authc (names : list string) :
  (forall n, In n names ->
             exists p, instantiateProvider cls n (authc n) = Normal p) ->
  exists entries, instantiateAll cls authc names = Normal entries.
Proof.
  induction names as [|n names IH]; intros H; simpl; [eauto|].
  destruct (H n (or_introl eq_refl)) as [p Hp]. rewrite Hp.
  destruct IH as [es Hes]; [intros m Hm; apply H; now right|].
  rewrite Hes. eauto.
Qed.

Lemma instantiateAll_one_throws cls authc (names : list string) n msg :
  In n names -> instantiateProvider cls n (authc n) = Threw msg ->
  exists msg', instantiateAll cls authc names = Threw msg'.
Proof.
  induction names as [|m names IH]; intros Hin Hn; [contradiction|]. simpl.
  destruct (instantiateProvider cls m (authc m)) as [p|msg'] eqn:Hm; [|eauto].
  destruct Hin as [->|Hin]; [congruence|].
  destruct (IH Hin Hn) as [msg' Hmsg]. rewrite Hmsg. eauto.
Qed.

Lemma instantiateAll_each cls authc (names : list string) entries n :
  instantiateAll cls authc names = Normal entries -> In n names ->
  exists p, instantiateProvider cls n (authc n) = Normal p.
Proof.
  revert entries. induction names as [|m names IH]; simpl; intros entries H Hin.
  - contradiction.
  - destruct (instantiateProvider cls m (authc m)) as [p|] eqn:Hm;
      [|discriminate].
    destruct (instantiateAll cls authc names) as [es|]; [|discriminate].
    destruct Hin as [->|Hin]; [eauto|]. now apply (IH es).
Qed.

(** X1. The constructor throws when no provider is configured, when a
    configured name is not one of the five provider keys, and when the
    constructor of the class of a configured name throws on the options the
    configuration has for it.  When the list is not empty and every
    configured name has a class whose constructor accepts its options, it
    builds an authenticator that keeps the options and takes its [ttl] from
    [sessionTimeout]; and it builds one in no other case. *)
Theorem constructor_accepts_only_supported_providers
    (opts : AuthenticatorOptions) :
  (authProviders opts = [] ->
   newAuthenticator opts
   = Threw "No authentication provider is configured. Verify `xpack.security.authc.providers` config value.")
  /\ (forall n, In n (authProviders opts) -> ~ In n supportedProviders ->
              exists msg, newAuthenticator opts = Threw msg)
  /\ (forall n ProviderClassName msg,
         In n (authProviders opts) ->
         JSMap.get (providerMap (classes opts)) n = Some ProviderClassName ->
         ProviderClassName (authc opts n) = Threw msg ->
         exists msg', newAuthenticator opts = Threw msg')
  /\ (authProviders opts <> [] ->
      (forall n, In n (authProviders opts) ->
                 exists ProviderClassName p,
                   JSMap.get (providerMap (classes opts)) n
                   = Some ProviderClassName
                   /\ ProviderClassName (authc opts n) = Normal p) ->
      exists this,
        newAuthenticator opts = Normal this
        /\ options this = opts /\ ttl this = sessionTimeout opts)
  /\ (forall this,
         newAuthenticator opts = Normal this ->
         authProviders opts <> []
         /\ forall n, In n (authProviders opts) ->
                      exists ProviderClassName p,
                        JSMap.get (providerMap (classes opts)) n
                        = Some ProviderClassName
                        /\ ProviderClassName (authc opts n) = Normal p).
Proof.
  unfold newAuthenticator. split; [|split; [|split; [|split]]].
  - intros ->. reflexivity.
  - intros n Hin Hn.
    destruct (authProviders opts) as [|n0 names] eqn:Hnames; [contradiction|].
    destruct (@instantiateProvider_unsupported (classes opts) n (authc opts n) Hn)
      as [msg Hmsg].
    destruct (@instantiateAll_one_throws (classes opts) (authc opts) _ n _ Hin Hmsg)
      as [msg' Hmsg'].
    rewrite Hmsg'. eauto.
  - intros n C msg Hin HC Hmsg.
    destruct (authProviders opts) as [|n0 names] eqn:Hnames; [contradiction|].
    assert (Hn : instantiateProvider (classes opts) n (authc opts n) = Threw msg).
    { unfold instantiateProvider. now rewrite HC. }
    destruct (@instantiateAll_one_throws (classes opts) (authc opts) _ n _ Hin Hn)
      as [msg' Hmsg'].
    rewrite Hmsg'. eauto.
  - intros Hne Hall.
    destruct (@instantiateAll_all (classes opts) (authc opts) (authProviders opts))
      as [es Hes].
    { intros n Hin. destruct (Hall n Hin) as (C & p & HC & Hp).
      exists p. unfold instantiateProvider. now rewrite HC. }
    destruct (authProviders opts) as [|n0 names] eqn:Hnames;
      [now contradiction Hne|].
    rewrite Hes. eexists. repeat split.
  - intros this Hnew.
    destruct (authProviders opts) as [|n0 names] eqn:Hnames; [discriminate|].
    split; [discriminate|]. intros n Hin.
    destruct (instantiateAll (classes opts) (authc opts) (n0 :: names))
      as [es|] eqn:Hes; [|discriminate].
    destruct (@instantiateAll_each _ _ _ _ n Hes Hin) as [p Hp].
    unfold instantiateProvider in Hp.
    destruct (JSMap.get (providerMap (classes opts)) n) as [C|];
      [|discriminate].
    exists C, p. split; [reflexivity | assumption].
Qed.

Lemma In_set_entries {V} (k : string) (v : V) (m : JSMap.t V) (e : string * V) :
  In e (JSMap.set k v m) -> e = (k, v) \/ In e m.
Proof.
  induction m as [|[k' v'] m IH]; simpl.
  - intros [<-|[]]. now left.
  - destruct (String.eqb_spec k' k); simpl.
    + subst. intros [<-|H]; auto.
    + intros [<-|H]; auto. destruct (IH H); auto.
Qed.

Lemma In_fold_set {V} (entries : list (string * V)) :
  forall (m : JSMap.t V) (e : string * V),
    In e (fold_left (fun m kv => JSMap.set (fst kv) (snd kv) m) entries m) ->
    In e m \/ In e entries.
Proof.
  induction entries as [|[k v] entries IH]; intros m e; simpl; [auto|].
  intros H. apply IH in H as [H|H]; [|auto].
  apply In_set_entries in H as [->|H]; auto.
Qed.

Lemma In_of_entries {V} (entries : list (string * V)) (e : string * V) :
  In e (JSMap.of_entries entries) -> In e entries.
Proof.
  intros H. apply In_fold_set in H as [[]|H]. assumption.
Qed.

Lemma instantiateAll_entries cls authc (names : list string) entries n p :
  instantiateAll cls authc names = Normal entries -> In (n, p) entries ->
  instantiateProvider cls n (authc n) = Normal p.
Proof.
  revert entries. induction names as [|m names IH]; simpl; intros entries H Hin.
  - inversion H; subst. contradiction.
  - destruct (instantiateProvider cls m (authc m)) as [q|] eqn:Hq;
      [|discriminate].
    destruct (instantiateAll cls authc names) as [es|]; [|discriminate].
    inversion H; subst. destruct Hin as [E|Hin].
    + now inversion E; subst.
    + now apply (IH es).
Qed.

(** X2. In the registry the constructor builds, a name finds a provider
    exactly when it is configured, and then it finds the provider that the
    class of the name constructs from the options configured for it: a lookup
    answers what [instantiateProvider] gives for a configured name and
    nothing for any other. *)
Theorem constructor_registers_configured_providers
    (opts : AuthenticatorOptions) (this : Authenticator) (n : string) :
  newAuthenticator opts = Normal this ->
  JSMap.get (providers this) n
  = if existsb (String.eqb n) (authProviders opts)
    then match instantiateProvider (classes opts) n (authc opts n) with
         | Normal p => Some p
         | Threw _ => None
         end
    else None.
Proof.
  intros Hnew.
  destruct (newAuthenticator_registry _ Hnew) as (_ & _ & _ & Hk & _ & _).
  unfold newAuthenticator in Hnew.
  destruct (authProviders opts) as [|n0 names] eqn:Hnames; [discriminate|].
  rewrite <- Hnames in *.
  destruct (instantiateAll (classes opts) (authc opts) (authProviders opts))
    as [es|] eqn:He; [|discriminate].
  assert (Hp : providers this = JSMap.of_entries es)
    by (inversion Hnew; reflexivity).
  destruct (JSMap.get (providers this) n) as [p|] eqn:Hget.
  - pose proof Hget as Hin. apply get_In in Hin.
    assert (Hn : In n (authProviders opts)).
    { apply firstOccurrences_In. rewrite <- Hk.
      change n with (fst (n, p)). now apply in_map. }
    assert (He' : existsb (String.eqb n) (authProviders opts) = true).
    { apply existsb_exists. exists n. split; [assumption|apply String.eqb_refl]. }
    rewrite He'. rewrite Hp in Hin. apply In_of_entries in Hin.
    now rewrite (@instantiateAll_entries _ _ _ _ _ _ He Hin).
  - destruct (existsb (String.eqb n) (authProviders opts)) eqn:He';
      [|reflexivity].
    apply existsb_exists in He' as (m & Hm & Hnm).
    apply String.eqb_eq in Hnm. subst m.
    apply get_None in Hget. exfalso. apply Hget. rewrite Hk.
    now apply firstOccurrences_In.
Qed.

End ConstructorProperties.

(** ** Reading the session *)

Section ReadProperties.

Context {ext : Externals}.

Lemma validSession_idem (this : Authenticator) (s : option ProviderSession) :
  validSession this (validSession this s) = validSession this s.
Proof.
  unfold validSession. destruct s as [sv|]; [|reflexivity].
  destruct (JSMap.has (providers this) (provider sv)) eqn:H; [|reflexivity].
  now rewrite H.
Qed.

Lemma readEvents_valid (this : Authenticator) (s : option ProviderSession) :
  readEvents this (validSession this s) = [StorageGet].
Proof.
  unfold readEvents, validSession. destruct s as [sv|]; [|reflexivity].
  destruct (JSMap.has (providers this) (provider sv)) eqn:H; [|reflexivity].
  now rewrite H.
Qed.

(** X4. [getSessionValue] on a stored session whose provider is not
    registered clears the storage and answers that there is no session; on a
    stored session whose provider is registered it answers that session and
    only reads. *)
Theorem getSessionValue_purges_unregistered_session
    (this : Authenticator) (w : World) (sv : ProviderSession) :
  storage w = Some sv ->
  (JSMap.get (providers this) (provider sv) = None ->
   getSessionValue this w
   = (Normal None, after w None [StorageGet; StorageClear]))
  /\ (forall p, JSMap.get (providers this) (provider sv) = Some p ->
      getSessionValue this w
      = (Normal (Some sv), after w (Some sv) [StorageGet])).
Proof.
  intros Hs. rewrite getSessionValue_eq, Hs.
  unfold validSession, readEvents, JSMap.has. split.
  - intros H. now rewrite H.
  - intros p H. now rewrite H.
Qed.

(** X5. After [getSessionValue] the storage holds exactly what was answered,
    and reading again answers the same with a single read and no clearing. *)
Theorem getSessionValue_settles (this : Authenticator) (w : World) :
  exists sv w1,
    getSessionValue this w = (Normal sv, w1)
    /\ storage w1 = sv
    /\ getSessionValue this w1 = (Normal sv, after w1 sv [StorageGet]).
Proof.
  exists (validSession this (storage w)).
  eexists. split; [apply getSessionValue_eq|]. split; [reflexivity|].
  rewrite getSessionValue_eq, storage_after.
  now rewrite validSession_idem, readEvents_valid.
Qed.

End ReadProperties.

(** ** The chain of [authenticate] *)

Section ChainProperties.

Context {ext : Externals}.

Lemma filter_length_le {A} (f : A -> bool) (l : list A) :
  (length (filter f l) <= length l)%nat.
Proof.
  induction l as [|x l IH]; simpl; [lia|]. destruct (f x); simpl; lia.
Qed.

Lemma filter_key_shorter {V} (m : JSMap.t V) (k : string) (v : V) :
  JSMap.get m k = Some v ->
  (length (filter (fun kv => negb (String.eqb (fst kv) k)) m) < length m)%nat.
Proof.
  induction m as [|[k' v'] m IH]; simpl; [discriminate|].
  destruct (String.eqb k' k); simpl.
  - intros _.
    pose proof (filter_length_le (fun kv => negb (String.eqb (fst kv) k)) m).
    lia.
  - intros H. apply IH in H. lia.
Qed.

Lemma chainOf_length (this : Authenticator) (s : option ProviderSession) :
  (length (chainOf this (validSession this s)) <= length (providers this))%nat.
Proof.
  destruct (validSession this s) as [sv|] eqn:Hv; [|simpl; lia].
  apply validSession_registered in Hv as [_ Hh].
  apply has_get in Hh as [p Hp].
  rewrite (chainOf_owned this sv Hp). simpl.
  pose proof (filter_key_shorter (providers this) (provider sv) Hp). lia.
Qed.

Lemma updatedWorld_mutation (this : Authenticator) n r es sys (w : World)
    s evs :
  updatedWorld this n r es sys (after w s evs)
  = after w (fst (sessionMutation this n r es sys (clock w) s))
      (evs ++ snd (sessionMutation this n r es sys (clock w) s)).
Proof.
  unfold updatedWorld, sessionMutation.
  destruct (_ && negb (shouldUpdateState r)); cbn [fst snd].
  { now rewrite app_nil_r. }
  destruct (shouldClearState r || failedUnauthorized r); cbn [fst snd].
  { now rewrite after_after. }
  destruct ((succeeded r || redirected r) && _); cbn [fst snd].
  - now rewrite after_after.
  - now rewrite app_nil_r.
Qed.

Lemma sessionMutation_tail (this : Authenticator) n r es sys now s :
  snd (sessionMutation this n r es sys now s) = []
  \/ snd (sessionMutation this n r es sys now s) = [StorageClear]
  \/ exists v, snd (sessionMutation this n r es sys now s) = [StorageSet v].
Proof.
  unfold sessionMutation.
  destruct (_ && negb (shouldUpdateState r)); [auto|].
  destruct (shouldClearState r || failedUnauthorized r); [auto|].
  destruct ((succeeded r || redirected r) && _); cbn [snd]; eauto.
Qed.

Lemma authenticateCalls_length (sv : option ProviderSession) names :
  length (authenticateCalls (map (callEvent sv) names)) = length names.
Proof. rewrite authenticateCalls_callEvents. apply length_map. Qed.

(** X7. [authenticate] calls the providers at most as many times as there
    are providers in the registry. *)
Theorem authenticate_calls_at_most_registry_size
    (this : Authenticator) (request : KibanaRequest) (w : World) :
  exists r w',
    authenticate this request w = (Normal r, w')
    /\ (length (authenticateCalls (newEvents w w'))
        <= length (providers this))%nat.
Proof.
  rewrite authenticate_eq. do 2 eexists. split; [reflexivity|].
  unfold authenticatedWorld. cbv zeta.
  set (sv := validSession this (storage w)).
  pose proof (chainOf_length this (storage w)) as Hlen. fold sv in Hlen.
  pose proof (scan_spec request sv (chainOf this sv)) as Hscan.
  destruct (snd (scan request sv (chainOf this sv))) as [[n r]|].
  - destruct Hscan as (pre & p & post & Hch & Hf & _).
    rewrite after_after, updatedWorld_calls, Hf.
    rewrite !authenticateCalls_app, authenticateCalls_readEvents.
    rewrite authenticateCalls_callEvents. simpl.
    rewrite Hch in Hlen. rewrite length_app in *. simpl in *.
    rewrite !length_map. lia.
  - destruct Hscan as [Hf _]. rewrite newEvents_after, Hf.
    rewrite authenticateCalls_app, authenticateCalls_readEvents.
    rewrite authenticateCalls_callEvents. simpl.
    rewrite !length_map. exact Hlen.
Qed.

(** X8. What [authenticate] does, in order: the read of the session, calls
    of the [authenticate] operation of providers, and then at most one [set]
    or [clear].  No provider's [login] or [logout] is called.  When it
    returns not-handled there is no [set] or [clear] after the read, and the
    storage holds the session that was read. *)
Theorem authenticate_event_shape
    (this : Authenticator) (request : KibanaRequest) (w : World) :
  exists r w' names tail,
    authenticate this request w = (Normal r, w')
    /\ newEvents w w'
       = readEvents this (storage w)
         ++ map (callEvent (validSession this (storage w))) names ++ tail
    /\ (tail = [] \/ tail = [StorageClear] \/ exists v, tail = [StorageSet v])
    /\ (r = NotHandled ->
        tail = [] /\ storage w' = validSession this (storage w)).
Proof.
  rewrite authenticate_eq.
  unfold authenticatedResult, authenticatedWorld. cbv zeta.
  set (sv := validSession this (storage w)).
  pose proof (scan_spec request sv (chainOf this sv)) as Hscan.
  destruct (snd (scan request sv (chainOf this sv))) as [[n r]|].
  - destruct Hscan as (pre & p & post & _ & _ & _ & _ & Hn).
    rewrite after_after, updatedWorld_mutation.
    set (M := sessionMutation this n r (ownedSession sv n)
                (isSystemAPIRequest (options this) request) (clock w) sv).
    exists r. eexists.
    exists (fst (scan request sv (chainOf this sv)) ++ [n]), (snd M).
    split; [reflexivity|]. rewrite newEvents_after, map_app, <- !app_assoc.
    split; [reflexivity|]. split; [apply sessionMutation_tail|].
    intros ->. discriminate.
  - exists NotHandled. eexists.
    exists (fst (scan request sv (chainOf this sv))), [].
    split; [reflexivity|]. rewrite newEvents_after, app_nil_r.
    split; [reflexivity|]. split; [auto|]. intros _. split; reflexivity.
Qed.

(** X6. A stored session whose provider is not registered makes no
    difference to [authenticate] beyond its purge: the outcome, the provider
    calls and the session left in the storage are those of the same call on
    an empty storage. *)
Theorem authenticate_ignores_unregistered_session
    (this : Authenticator) (request : KibanaRequest) (w : World)
    (sv : ProviderSession) :
  storage w = Some sv ->
  JSMap.get (providers this) (provider sv) = None ->
  exists r w' w0' evs,
    authenticate this request w = (Normal r, w')
    /\ authenticate this request
         {| storage := None; clock := clock w; trace := trace w |}
       = (Normal r, w0')
    /\ storage w' = storage w0'
    /\ newEvents {| storage := None; clock := clock w; trace := trace w |} w0'
       = StorageGet :: evs
    /\ newEvents w w' = StorageGet :: StorageClear :: evs.
Proof.
  intros Hs Hp. rewrite !authenticate_eq.
  unfold authenticatedResult, authenticatedWorld. cbv zeta.
  cbn [storage]. rewrite Hs.
  assert (Hv : validSession this (Some sv) = None).
  { unfold validSession, JSMap.has. now rewrite Hp. }
  assert (Hr : readEvents this (Some sv) = [StorageGet; StorageClear]).
  { unfold readEvents, JSMap.has. now rewrite Hp. }
  rewrite Hv, Hr. cbn [validSession readEvents chainOf].
  set (found := scan request None (providers this)).
  set (w0 := {| storage := None; clock := clock w; trace := trace w |}).
  destruct (snd found) as [[n r]|].
  - set (M := sessionMutation this n r (ownedSession None n)
                (isSystemAPIRequest (options this) request) (clock w) None).
    exists r. do 2 eexists.
    exists (map (callEvent None) (fst found) ++ [callEvent None n] ++ snd M).
    split; [reflexivity|]. split; [reflexivity|].
    rewrite !after_after, !updatedWorld_mutation. cbn [clock]. fold M.
    rewrite !storage_after, !newEvents_after, <- !app_assoc.
    repeat split.
  - exists NotHandled. do 2 eexists.
    exists (map (callEvent None) (fst found)).
    split; [reflexivity|]. split; [reflexivity|].
    rewrite !storage_after, !newEvents_after. repeat split.
Qed.

End ChainProperties.

(** ** [login] and the session of the targeted provider *)

Section LoginProperties.

Context {ext : Externals}.

Lemma loginReadEvents_own (this : Authenticator) (sv : ProviderSession) p :
  JSMap.get (providers this) (provider sv) = Some p ->
  loginReadEvents this (provider sv) (Some sv) = [StorageGet].
Proof.
  intros Hp. unfold loginReadEvents.
  rewrite (readEvents_registered this sv Hp).
  rewrite (validSession_of_registered this sv Hp).
  now rewrite String.eqb_refl.
Qed.

(** The world [login] leaves when the session in the storage belongs to the
    targeted provider. *)
Lemma loggedInWorld_own (this : Authenticator) (request : KibanaRequest)
    (value : Value) (p : BaseAuthenticationProvider) (w : World)
    (sv : ProviderSession) :
  storage w = Some sv ->
  JSMap.get (providers this) (provider sv) = Some p ->
  loggedInWorld this request (provider sv) value p w
  = if shouldClearState (provider_login p request value (state sv))
       || failedUnauthorized (provider_login p request value (state sv))
    then after w None
           ([StorageGet; LoginCall (provider sv) value (state sv)]
            ++ [StorageClear])
    else if shouldUpdateState (provider_login p request value (state sv))
    then after w
           (Some {| state := result_state
                               (provider_login p request value (state sv));
                    provider := provider sv;
                    expires := expiresAt (ttl this) (clock w) |})
           ([StorageGet; LoginCall (provider sv) value (state sv)]
            ++ [StorageSet
                  {| state := result_state
                                (provider_login p request value (state sv));
                     provider := provider sv;
                     expires := expiresAt (ttl this) (clock w) |}])
    else after w (Some sv)
           [StorageGet; LoginCall (provider sv) value (state sv)].
Proof.
  intros Hs Hp. unfold loggedInWorld. cbv zeta.
  rewrite Hs, (validSession_of_registered this sv Hp).
  rewrite ownedState_owner, ownedSession_owner, (loginReadEvents_own this sv Hp).
  cbn [andb].
  destruct (shouldClearState _ || failedUnauthorized _).
  - now rewrite after_after.
  - destruct (shouldUpdateState _); [now rewrite after_after|reflexivity].
Qed.

(** X9. A [login] that finds a session of the provider it targets passes the
    state of that session to the provider's [login], without clearing the
    storage first; after the call it performs at most one [set] or [clear]. *)
Theorem login_resumes_own_session
    (this : Authenticator) (request : KibanaRequest)
    (attempt : ProviderLoginAttempt) (w : World) (sv : ProviderSession)
    (p : BaseAuthenticationProvider) :
  attempt_provider attempt <> "" ->
  storage w = Some sv ->
  provider sv = attempt_provider attempt ->
  JSMap.get (providers this) (attempt_provider attempt) = Some p ->
  exists w' tail,
    login this request attempt w
    = (Normal (provider_login p request (attempt_value attempt) (state sv)), w')
    /\ newEvents w w'
       = [StorageGet;
          LoginCall (attempt_provider attempt) (attempt_value attempt) (state sv)]
         ++ tail
    /\ (tail = [] \/ tail = [StorageClear] \/ exists v, tail = [StorageSet v]).
Proof.
  intros Hne Hs Hown Hp.
  rewrite (login_eq this request attempt w Hne Hp).
  rewrite <- Hown in *. rewrite Hs, (validSession_of_registered this sv Hp).
  rewrite ownedState_owner, (loggedInWorld_own this request _ w Hs Hp).
  destruct (shouldClearState _ || failedUnauthorized _).
  - do 2 eexists. split; [reflexivity|]. rewrite newEvents_after. eauto.
  - destruct (shouldUpdateState _).
    + do 2 eexists. split; [reflexivity|]. rewrite newEvents_after. eauto 6.
    + exists (after w (Some sv)
                [StorageGet; LoginCall (provider sv) (attempt_value attempt)
                               (state sv)]), [].
      split; [reflexivity|]. rewrite newEvents_after. auto.
Qed.

(** X10. A [login] whose outcome neither asks to update or clear the state
    nor is a 401 failure (a failure with another status, a plain success or
    redirect, not-handled) leaves the session of the targeted provider in the
    storage as it was: nothing is set or cleared, the expiry is not
    extended. *)
Theorem login_keeps_own_session_without_intent
    (this : Authenticator) (request : KibanaRequest)
    (attempt : ProviderLoginAttempt) (w : World) (sv : ProviderSession)
    (p : BaseAuthenticationProvider) :
  attempt_provider attempt <> "" ->
  storage w = Some sv ->
  provider sv = attempt_provider attempt ->
  JSMap.get (providers this) (attempt_provider attempt) = Some p ->
  shouldUpdateState
    (provider_login p request (attempt_value attempt) (state sv)) = false ->
  shouldClearState
    (provider_login p request (attempt_value attempt) (state sv)) = false ->
  failedUnauthorized
    (provider_login p request (attempt_value attempt) (state sv)) = false ->
  login this request attempt w
  = (Normal (provider_login p request (attempt_value attempt) (state sv)),
     after w (Some sv)
       [StorageGet;
        LoginCall (attempt_provider attempt) (attempt_value attempt)
          (state sv)]).
Proof.
  intros Hne Hs Hown Hp Hu Hc Hf.
  rewrite (login_eq this request attempt w Hne Hp).
  rewrite <- Hown in *. rewrite Hs, (validSession_of_registered this sv Hp).
  rewrite ownedState_owner, (loggedInWorld_own this request _ w Hs Hp).
  now rewrite Hu, Hc, Hf.
Qed.

Lemma login_result_world (this : Authenticator) (request : KibanaRequest)
    (attempt : ProviderLoginAttempt) (w w' : World) (r : AuthenticationResult) :
  login this request attempt w = (Normal r, w') ->
  (r = NotHandled /\ w' = w)
  \/ exists p,
      attempt_provider attempt <> ""
      /\ JSMap.get (providers this) (attempt_provider attempt) = Some p
      /\ r = provider_login p request (attempt_value attempt)
               (ownedState (validSession this (storage w))
                  (attempt_provider attempt))
      /\ w' = loggedInWorld this request (attempt_provider attempt)
                (attempt_value attempt) p w.
Proof.
  intros Hlogin.
  destruct (String.eqb (attempt_provider attempt) "") eqn:Hne.
  { unfold login, bind, assertLoginAttempt in Hlogin. rewrite Hne in Hlogin.
    discriminate. }
  apply String.eqb_neq in Hne.
  destruct (JSMap.get (providers this) (attempt_provider attempt))
    as [p|] eqn:Hp.
  - rewrite (login_eq this request attempt w Hne Hp) in Hlogin.
    right. exists p. repeat split; congruence.
  - rewrite (login_unregistered_eq this request attempt w Hne Hp) in Hlogin.
    left. split; congruence.
Qed.

(** X11. After a [login] whose outcome asks to clear the state there is no
    session in the storage, whatever was stored before. *)
Theorem login_clear_request_empties_storage
    (this : Authenticator) (request : KibanaRequest)
    (attempt : ProviderLoginAttempt) (w w' : World) (r : AuthenticationResult) :
  login this request attempt w = (Normal r, w') ->
  shouldClearState r = true ->
  storage w' = None.
Proof.
  intros Hlogin Hc.
  destruct (login_result_world _ _ _ _ Hlogin)
    as [[-> _]|(p & _ & _ & Hr & ->)]; [discriminate|].
  unfold loggedInWorld. cbv zeta. rewrite <- Hr, Hc. cbn [orb].
  assert (Hu : shouldUpdateState r = false).
  { unfold shouldClearState in Hc. unfold shouldUpdateState.
    destruct (intent r); congruence. }
  rewrite Hu. destruct (ownedSession _ _); reflexivity.
Qed.

(** X12. After a [login] whose outcome asks to update the state the storage
    holds the state of the outcome under the name of the targeted provider,
    whatever was stored before; its expiry is none when no session timeout is
    configured and the time of the call plus the timeout when the timeout is
    not zero. *)
Theorem login_stores_requested_state
    (this : Authenticator) (request : KibanaRequest)
    (attempt : ProviderLoginAttempt) (w w' : World) (r : AuthenticationResult)
    (s : State) :
  login this request attempt w = (Normal r, w') ->
  intent r = UpdateState s ->
  exists e,
    storage w'
    = Some {| state := Some s; provider := attempt_provider attempt;
              expires := e |}
    /\ In (StorageSet {| state := Some s; provider := attempt_provider attempt;
                         expires := e |}) (newEvents w w')
    /\ (ttl this = None -> e = None)
    /\ (forall t, ttl this = Some t -> t <> 0 -> e = Some (clock w + t)).
Proof.
  intros Hlogin Hi.
  destruct (login_result_world _ _ _ _ Hlogin)
    as [[-> _]|(p & _ & _ & Hr & ->)]; [discriminate|].
  exists (expiresAt (ttl this) (clock w)).
  unfold loggedInWorld. cbv zeta. rewrite <- Hr.
  unfold shouldClearState, shouldUpdateState, result_state. rewrite Hi.
  assert (Hf : failedUnauthorized r = false)
    by (destruct r; simpl in *; congruence).
  rewrite Hf, andb_false_r. rewrite after_after, storage_after, newEvents_after.
  split; [reflexivity|]. split.
  - apply in_or_app. right. now left.
  - split.
    + intros ->. reflexivity.
    + intros t -> Ht. now apply expiresAt_nonzero.
Qed.

End LoginProperties.

(** ** [logout] *)

Section LogoutProperties.

Context {ext : Externals}.

(** [logout] when the session read is there. *)
Lemma logout_with_session (this : Authenticator) (request : KibanaRequest)
    (w : World) (sv : ProviderSession) (p : BaseAuthenticationProvider) :
  storage w = Some sv ->
  JSMap.get (providers this) (provider sv) = Some p ->
  logout this request w
  = (Normal (provider_logout p request (state sv)),
     after w None
       [StorageGet; StorageClear; LogoutCall (provider sv) (state sv)]).
Proof.
  intros Hs Hp. unfold logout. unfold bind at 1.
  rewrite getSessionValue_eq, Hs, (validSession_of_registered this sv Hp).
  rewrite (readEvents_registered this sv Hp).
  unfold bind at 1, sessionStorage_clear. rewrite Hp. cbn [nonNull].
  unfold bind at 1, ret. unfold call_logout, bind, emit, ret, after. simpl.
  now rewrite <- !app_assoc.
Qed.

(** [logout] when no session is read. *)
Lemma logout_without_session (this : Authenticator) (request : KibanaRequest)
    (w : World) :
  validSession this (storage w) = None ->
  logout this request w
  = if isSAMLRequestQuery request
    then match JSMap.get (providers this) "saml" with
         | Some p =>
             (Normal (provider_logout p request None),
              after w None
                (readEvents this (storage w) ++ [LogoutCall "saml" None]))
         | None =>
             (Normal DeauthNotHandled,
              after w None (readEvents this (storage w)))
         end
    else (Normal DeauthNotHandled, after w None (readEvents this (storage w))).
Proof.
  intros Hv. unfold logout. unfold bind at 1.
  rewrite getSessionValue_eq, Hv. unfold JSMap.has.
  destruct (isSAMLRequestQuery request); cbn [andb]; [|reflexivity].
  destruct (JSMap.get (providers this) "saml") as [p|]; [|reflexivity].
  cbn [nonNull]. unfold bind at 1, ret.
  unfold call_logout, bind, emit, ret, after. cbn [storage clock trace].
  now rewrite <- !app_assoc.
Qed.

(** X13. [logout] always returns, never writes a session, and leaves the
    storage without a session, whatever was stored and whoever owned it. *)
Theorem logout_leaves_no_session
    (this : Authenticator) (request : KibanaRequest) (w : World) :
  exists r w',
    logout this request w = (Normal r, w')
    /\ storage w' = None
    /\ Forall (fun e => forall v, e <> StorageSet v) (newEvents w w').
Proof.
  assert (Hread : Forall (fun e => forall v, e <> StorageSet v)
                    (readEvents this (storage w))).
  { unfold readEvents. destruct (storage w) as [sv|];
      [destruct (JSMap.has _ _)|]; repeat constructor; discriminate. }
  destruct (validSession this (storage w)) as [sv|] eqn:Hv.
  - apply validSession_registered in Hv as [Hs Hh].
    apply has_get in Hh as [p Hp].
    rewrite (logout_with_session this request w Hs Hp).
    do 2 eexists. split; [reflexivity|]. split; [reflexivity|].
    rewrite newEvents_after. repeat constructor; discriminate.
  - rewrite (logout_without_session this request w Hv).
    destruct (isSAMLRequestQuery request);
      [destruct (JSMap.get (providers this) "saml")|];
      do 2 eexists; (split; [reflexivity|]); (split; [reflexivity|]);
      rewrite newEvents_after; try assumption.
    apply Forall_app. split; [assumption|]. repeat constructor; discriminate.
Qed.

(** X14. A [logout] that finds a session of a registered provider clears the
    storage first and then calls the [logout] of that provider, and of no
    other, with the state of the session; what the provider answers is what
    [logout] returns. *)
Theorem logout_delegates_to_session_owner
    (this : Authenticator) (request : KibanaRequest) (w : World)
    (sv : ProviderSession) (p : BaseAuthenticationProvider) :
  storage w = Some sv ->
  JSMap.get (providers this) (provider sv) = Some p ->
  exists w',
    logout this request w = (Normal (provider_logout p request (state sv)), w')
    /\ newEvents w w'
       = [StorageGet; StorageClear; LogoutCall (provider sv) (state sv)]
    /\ storage w' = None.
Proof.
  intros Hs Hp. rewrite (logout_with_session this request w Hs Hp).
  eexists. split; [reflexivity|]. now rewrite newEvents_after.
Qed.

(** X15. A [logout] without a session on a request whose query is a SAML
    logout request: when a provider is registered as "saml", its [logout] is
    called without a state and its answer is returned; when none is, the
    answer is not-handled and no provider is called.  The storage is only
    read. *)
Theorem logout_saml_request_without_session
    (this : Authenticator) (request : KibanaRequest) (w : World) :
  storage w = None ->
  isSAMLRequestQuery request = true ->
  logout this request w
  = match JSMap.get (providers this) "saml" with
    | Some p =>
        (Normal (provider_logout p request None),
         after w None [StorageGet; LogoutCall "saml" None])
    | None => (Normal DeauthNotHandled, after w None [StorageGet])
    end.
Proof.
  intros Hs Hq. rewrite logout_without_session by now rewrite Hs.
  rewrite Hq, Hs. reflexivity.
Qed.

End LogoutProperties.

(** ** [authenticate] and the session *)

Section AuthenticateProperties.

Context {ext : Externals}.


(** X17. When the provider that owns the session fails with an error that is
    not classified 401, [authenticate] returns the failure and the session
    stays in the storage as it was: nothing is set or cleared. *)
Theorem authenticate_keeps_session_on_other_failure
    (this : Authenticator) (request : KibanaRequest) (w : World)
    (sv : ProviderSession) (p : BaseAuthenticationProvider) (e : Error) :
  storage w = Some sv ->
  JSMap.get (providers this) (provider sv) = Some p ->
  provider_authenticate p request (state sv) = Failed e ->
  getErrorStatusCode e <> Some 401 ->
  authenticate this request w
  = (Normal (Failed e),
     after w (Some sv) [StorageGet; AuthenticateCall (provider sv) (state sv)]).
Proof.
  intros Hs Hp Hr He.
  assert (Hn : notHandled (provider_authenticate p request (state sv)) = false)
    by now rewrite Hr.
  rewrite (authenticate_owner_decides this request w Hs Hp Hn), Hr.
  unfold updatedWorld. cbn.
  destruct (getErrorStatusCode e) as [code|]; [|reflexivity].
  destruct (Z.eqb_spec code 401); [congruence|reflexivity].
Qed.

Lemma chainOf_In_providers (this : Authenticator) (s : option ProviderSession)
    n p :
  In (n, p) (chainOf this (validSession this s)) -> In (n, p) (providers this).
Proof.
  intros Hin. unfold chainOf in Hin.
  destruct (validSession this s) as [sv|] eqn:Hv; [|assumption].
  apply validSession_registered in Hv as [_ Hh].
  apply has_get in Hh as [q Hq]. rewrite Hq in Hin.
  destruct Hin as [E|Hin].
  - inversion E; subst. now apply get_In.
  - now apply filter_In in Hin as [Hin _].
Qed.

(** X18. When [authenticate] returns an outcome that asks to update the
    state, the outcome is that of a provider in the registry, and the storage
    holds the state of the outcome under the name of that provider, whoever
    owned the session before; the expiry is none when no session timeout is
    configured and the time of the call plus the timeout when the timeout is
    not zero. *)
Theorem authenticate_stores_requested_state
    (this : Authenticator) (request : KibanaRequest) (w w' : World)
    (r : AuthenticationResult) (s : State) :
  authenticate this request w = (Normal r, w') ->
  intent r = UpdateState s ->
  exists n p e,
    In (n, p) (providers this)
    /\ r = provider_authenticate p request
             (ownedState (validSession this (storage w)) n)
    /\ storage w'
       = Some {| state := Some s; provider := n; expires := e |}
    /\ (ttl this = None -> e = None)
    /\ (forall t, ttl this = Some t -> t <> 0 -> e = Some (clock w + t)).
Proof.
  intros Hauth Hi.
  destruct (authenticate_update_stores_envelope this request w Hauth Hi)
    as (n & p & Hin & Hr & Hst).
  exists n, p, (expiresAt (ttl this) (clock w)).
  split; [exact (chainOf_In_providers this (storage w) n p Hin)|].
  split; [assumption|]. split; [assumption|]. split.
  - intros ->. reflexivity.
  - intros t -> Ht. now apply expiresAt_nonzero.
Qed.

End AuthenticateProperties.

(** * The further properties on a concrete installation *)

Section ConcreteProperties.

Import Demo.

Lemma constructor_accepts_only_supported_providers_witness :
  newAuthenticator (Demo.optionsFor [] None)
  = Threw "No authentication provider is configured. Verify `xpack.security.authc.providers` config value."
  /\ (exists msg,
        newAuthenticator (Demo.optionsFor ["basic"; "ldap"] None) = Threw msg)
  /\ (exists msg,
        newAuthenticator (Demo.optionsWithoutRealms ["basic"; "saml"] None)
        = Threw msg)
  /\ (exists this,
        newAuthenticator (Demo.optionsFor ["basic"; "saml"] (Some 60000))
        = Normal this
        /\ ttl this = Some 60000).
Proof.
  split; [|split; [|split]].
  - apply (proj1 (@constructor_accepts_only_supported_providers
                    Demo.ext (Demo.optionsFor [] None))).
    reflexivity.
  - apply (proj1 (proj2 (@constructor_accepts_only_supported_providers
                           Demo.ext (Demo.optionsFor ["basic"; "ldap"] None)))
             "ldap").
    + right. left. reflexivity.
    + intros [H|[H|[H|[H|[H|[]]]]]]; discriminate H.
  - apply (proj1 (proj2 (proj2 (@constructor_accepts_only_supported_providers
                                  Demo.ext
                                  (Demo.optionsWithoutRealms ["basic"; "saml"]
                                     None))))
             "saml" (Demo.realmClassOf Demo.saml)
             "Realm name must be specified").
    + right. left. reflexivity.
    + reflexivity.
    + reflexivity.
  - destruct (proj1 (proj2 (proj2 (proj2
                (@constructor_accepts_only_supported_providers
                   Demo.ext
                   (Demo.optionsFor ["basic"; "saml"] (Some 60000)))))))
      as (this & Hnew & _ & Httl).
    + discriminate.
    + intros n [<-|[<-|[]]].
      * exists (Demo.classOf Demo.basic), Demo.basic. split; reflexivity.
      * exists (Demo.realmClassOf Demo.saml), Demo.saml. split; reflexivity.
    + exists this. split; assumption.
Defined.

Lemma constructor_registers_configured_providers_witness :
  let this := Demo.build ["token"; "saml"; "token"] None in
  JSMap.get (providers this) "saml" = Some Demo.saml
  /\ JSMap.get (providers this) "token" = Some Demo.token
  /\ JSMap.get (providers this) "basic" = None.
Proof.
  intros this. split; [|split].
  - exact (@constructor_registers_configured_providers Demo.ext
             (Demo.optionsFor ["token"; "saml"; "token"] None) this "saml"
             eq_refl).
  - exact (@constructor_registers_configured_providers Demo.ext
             (Demo.optionsFor ["token"; "saml"; "token"] None) this "token"
             eq_refl).
  - exact (@constructor_registers_configured_providers Demo.ext
             (Demo.optionsFor ["token"; "saml"; "token"] None) this "basic"
             eq_refl).
Defined.

Lemma getSessionValue_purges_unregistered_session_witness :
  let this := Demo.build ["token"] None in
  getSessionValue this (Demo.world (Some (Demo.session "basic" 1)) 1000)
  = (Normal None,
     after (Demo.world (Some (Demo.session "basic" 1)) 1000) None
       [StorageGet; StorageClear])
  /\ getSessionValue this (Demo.world (Some (Demo.session "token" 3)) 1000)
     = (Normal (Some (Demo.session "token" 3)),
        after (Demo.world (Some (Demo.session "token" 3)) 1000)
          (Some (Demo.session "token" 3)) [StorageGet]).
Proof.
  intros this. split.
  - exact (proj1 (@getSessionValue_purges_unregistered_session Demo.ext this
                    (Demo.world (Some (Demo.session "basic" 1)) 1000)
                    (Demo.session "basic" 1) eq_refl) eq_refl).
  - exact (proj2 (@getSessionValue_purges_unregistered_session Demo.ext this
                    (Demo.world (Some (Demo.session "token" 3)) 1000)
                    (Demo.session "token" 3) eq_refl) Demo.token eq_refl).
Defined.

Lemma authenticate_ignores_unregistered_session_witness :
  let this := Demo.build ["kerberos"; "saml"] (Some 3600000) in
  let w := Demo.world (Some (Demo.session "basic" 1)) 1000 in
  exists r w' w0' evs,
    authenticate this Demo.userRequest w = (Normal r, w')
    /\ authenticate this Demo.userRequest (Demo.world None 1000)
       = (Normal r, w0')
    /\ storage w' = storage w0'
    /\ newEvents (Demo.world None 1000) w0' = StorageGet :: evs
    /\ newEvents w w' = StorageGet :: StorageClear :: evs.
Proof.
  intros this w.
  exact (@authenticate_ignores_unregistered_session Demo.ext this
           Demo.userRequest w (Demo.session "basic" 1) eq_refl eq_refl).
Defined.

Lemma login_resumes_own_session_witness :
  let this := Demo.build ["saml"] (Some 3600000) in
  let w := Demo.world (Some (Demo.session "saml" 1)) 1000 in
  exists w' tail,
    login this Demo.userRequest (Demo.attempt "saml" "response") w
    = (Normal (Redirected "/idp" (UpdateState 1%nat)), w')
    /\ newEvents w w'
       = [StorageGet; LoginCall "saml" "response" (Some 1%nat)] ++ tail.
Proof.
  intros this w.
  destruct (@login_resumes_own_session Demo.ext this Demo.userRequest
              (Demo.attempt "saml" "response") w (Demo.session "saml" 1)
              Demo.saml ltac:(discriminate) eq_refl eq_refl eq_refl)
    as (w' & tail & Hlogin & Hevents & _).
  exists w', tail. split; [exact Hlogin | exact Hevents].
Defined.

Lemma login_keeps_own_session_without_intent_witness :
  let this := Demo.buildOther ["basic"] (Some 3600000) in
  let w := Demo.world (Some (Demo.session "basic" 1)) 1000 in
  login this Demo.userRequest (Demo.attempt "basic" "elastic") w
  = (Normal (Failed (Some 500)),
     after w (Some (Demo.session "basic" 1))
       [StorageGet; LoginCall "basic" "elastic" (Some 1%nat)]).
Proof.
  intros this w.
  exact (@login_keeps_own_session_without_intent Demo.ext this
           Demo.userRequest (Demo.attempt "basic" "elastic") w
           (Demo.session "basic" 1) Demo.flaky
           ltac:(discriminate) eq_refl eq_refl eq_refl eq_refl eq_refl eq_refl).
Defined.

Lemma login_clear_request_empties_storage_witness :
  let this := Demo.buildOther ["kerberos"] (Some 3600000) in
  let w := Demo.world (Some (Demo.session "kerberos" 1)) 1000 in
  login this Demo.userRequest (Demo.attempt "kerberos" "ticket") w
  = (Normal (Succeeded "ticket" ClearState),
     after w None
       [StorageGet; LoginCall "kerberos" "ticket" (Some 1%nat); StorageClear])
  /\ storage
       (after w None
          [StorageGet; LoginCall "kerberos" "ticket" (Some 1%nat);
           StorageClear]) = None.
Proof.
  intros this w. split; [reflexivity|].
  exact (@login_clear_request_empties_storage Demo.ext this Demo.userRequest
           (Demo.attempt "kerberos" "ticket") w
           (after w None
              [StorageGet; LoginCall "kerberos" "ticket" (Some 1%nat);
               StorageClear])
           (Succeeded "ticket" ClearState) eq_refl eq_refl).
Defined.

Lemma login_stores_requested_state_witness :
  let this := Demo.build ["basic"; "saml"] (Some 3600000) in
  let w := Demo.world (Some (Demo.session "saml" 1)) 1000 in
  exists w' e,
    login this Demo.userRequest (Demo.attempt "basic" "elastic") w
    = (Normal (Succeeded "elastic" (UpdateState 1%nat)), w')
    /\ storage w'
       = Some {| state := Some 1%nat; provider := "basic"; expires := e |}
    /\ e = Some (1000 + 3600000).
Proof.
  intros this w.
  destruct (@login_stores_requested_state Demo.ext this Demo.userRequest
              (Demo.attempt "basic" "elastic") w
              (snd (login this Demo.userRequest
                      (Demo.attempt "basic" "elastic") w))
              (Succeeded "elastic" (UpdateState 1%nat)) 1%nat
              eq_refl eq_refl)
    as (e & Hstorage & _ & _ & Hexpires).
  exists (snd (login this Demo.userRequest (Demo.attempt "basic" "elastic") w)), e.
  split; [reflexivity|]. split; [exact Hstorage|].
  apply (Hexpires 3600000); [reflexivity | discriminate].
Defined.

Lemma logout_delegates_to_session_owner_witness :
  let this := Demo.build ["basic"; "saml"] (Some 3600000) in
  let w := Demo.world (Some (Demo.session "saml" 1)) 1000 in
  exists w',
    logout this Demo.userRequest w = (Normal (DeauthRedirected "/idp/logout"), w')
    /\ newEvents w w'
       = [StorageGet; StorageClear; LogoutCall "saml" (Some 1%nat)]
    /\ storage w' = None.
Proof.
  intros this w.
  exact (@logout_delegates_to_session_owner Demo.ext this Demo.userRequest w
           (Demo.session "saml" 1) Demo.saml eq_refl eq_refl).
Defined.

Lemma logout_saml_request_without_session_witness :
  logout (Demo.build ["basic"; "saml"] None) Demo.samlLogoutRequest
    (Demo.world None 1000)
  = (Normal (DeauthRedirected "/idp/logout"),
     after (Demo.world None 1000) None [StorageGet; LogoutCall "saml" None])
  /\ logout (Demo.build ["basic"] None) Demo.samlLogoutRequest
       (Demo.world None 1000)
     = (Normal DeauthNotHandled, after (Demo.world None 1000) None [StorageGet]).
Proof.
  split.
  - exact (@logout_saml_request_without_session Demo.ext
             (Demo.build ["basic"; "saml"] None) Demo.samlLogoutRequest
             (Demo.world None 1000) eq_refl eq_refl).
  - exact (@logout_saml_request_without_session Demo.ext
             (Demo.build ["basic"] None) Demo.samlLogoutRequest
             (Demo.world None 1000) eq_refl eq_refl).
Defined.


Lemma authenticate_keeps_session_on_other_failure_witness :
  let this := Demo.buildOther ["basic"; "token"] (Some 3600000) in
  let w := Demo.world (Some (Demo.session "basic" 1)) 1000 in
  authenticate this Demo.userRequest w
  = (Normal (Failed (Some 500)),
     after w (Some (Demo.session "basic" 1))
       [StorageGet; AuthenticateCall "basic" (Some 1%nat)]).
Proof.
  intros this w.
  exact (@authenticate_keeps_session_on_other_failure Demo.ext this
           Demo.userRequest w (Demo.session "basic" 1) Demo.flaky (Some 500)
           eq_refl eq_refl eq_refl ltac:(discriminate)).
Defined.

Lemma authenticate_stores_requested_state_witness :
  let this := Demo.build ["kerberos"; "saml"] (Some 3600000) in
  let w := Demo.world (Some (Demo.session "kerberos" 1)) 1000 in
  exists w' n p e,
    authenticate this Demo.userRequest w
    = (Normal (Redirected "/idp" (UpdateState 1%nat)), w')
    /\ In (n, p) (providers this)
    /\ storage w'
       = Some {| state := Some 1%nat; provider := n; expires := e |}
    /\ e = Some (1000 + 3600000).
Proof.
  intros this w.
  destruct (@authenticate_stores_requested_state Demo.ext this
              Demo.userRequest w
              (snd (authenticate this Demo.userRequest w))
              (Redirected "/idp" (UpdateState 1%nat)) 1%nat eq_refl eq_refl)
    as (n & p & e & Hin & _ & Hstorage & _ & Hexpires).
  exists (snd (authenticate this Demo.userRequest w)), n, p, e.
  split; [reflexivity|]. split; [exact Hin|]. split; [exact Hstorage|].
  apply (Hexpires 3600000); [reflexivity | discriminate].
Defined.

Lemma authenticate_event_shape_witness :
  let this := Demo.build ["kerberos"; "oidc"] (Some 3600000) in
  let w := Demo.world (Some (Demo.session "oidc" 1)) 1000 in
  exists w' names,
    authenticate this Demo.userRequest w = (Normal NotHandled, w')
    /\ newEvents w w'
       = [StorageGet] ++ map (callEvent (Some (Demo.session "oidc" 1))) names
    /\ storage w' = Some (Demo.session "oidc" 1).
Proof.
  intros this w.
  destruct (@authenticate_event_shape Demo.ext this Demo.userRequest w)
    as (r & w' & names & tail & Hauth & Hevents & _ & Hquiet).
  assert (Hr : r = NotHandled).
  { assert (H : fst (authenticate this Demo.userRequest w) = Normal r)
      by (rewrite Hauth; reflexivity).
    vm_compute in H. injection H as H. symmetry. exact H. }
  destruct (Hquiet Hr) as [Htail Hstorage].
  exists w', names. rewrite <- Hr. split; [exact Hauth|].
  rewrite Hevents, Htail, app_nil_r. split; [reflexivity | exact Hstorage].
Defined.

End ConcreteProperties.
